(** * Warranty analyzer: text acquisition, reply parsing and date arithmetic

    A shallow embedding of [app/document_processor.py],
    [app/warranty_analyzer.py] and the parts of [app/models.py] they use,
    followed by the properties of the specification that concern them.

    Python values are represented as the interpreter sees them: [str] as a
    sequence of code points, [float] as IEEE binary64 (the primitive floats
    of the prover; a decimal literal such as [0.1] denotes the nearest
    binary64 value, as it does in Python), [int] as [Z], exceptions as an
    inductive type carried by a result.  Calls that leave the process (the
    model API, the PDF and imaging libraries, the logger, the clock) are
    threaded through a small state and error monad whose state records every
    such call. *)

From Stdlib Require Import ZArith NArith List Bool String Ascii Lia.
From Stdlib Require Import PrimFloat SpecFloat FloatOps.
Import ListNotations.

Set Implicit Arguments.
Set Warnings "-register-all,-inexact-float".
Open Scope string_scope.
Open Scope list_scope.
Open Scope Z_scope.

(* ================================================================= *)
(** ** Python strings *)

Module Py.

(** A [str] is a sequence of Unicode code points. *)
Definition char := N.
Definition pystr := list char.
Definition bytes := list Byte.byte.

(** The [str] written by an ASCII literal. *)
Definition py (s : string) : pystr :=
  List.map N_of_ascii (list_ascii_of_string s).

Definition len (s : pystr) : Z := Z.of_nat (List.length s).

Fixpoint str_eqb (a b : pystr) : bool :=
  match a, b with
  | [], [] => true
  | x :: a', y :: b' => N.eqb x y && str_eqb a' b'
  | _, _ => false
  end.

(** [str.isspace] on one code point: bidirectional class WS, B or S, or
    category Zs. *)
Definition isspace (c : char) : bool :=
  ((9 <=? c) && (c <=? 13) || (28 <=? c) && (c <=? 32)
   || (c =? 133) || (c =? 160) || (c =? 5760)
   || (8192 <=? c) && (c <=? 8202) || (c =? 8232) || (c =? 8233)
   || (c =? 8239) || (c =? 8287) || (c =? 12288))%N.

Fixpoint lstrip (s : pystr) : pystr :=
  match s with
  | c :: s' => if isspace c then lstrip s' else s
  | [] => []
  end.

Definition rstrip (s : pystr) : pystr := rev (lstrip (rev s)).

(** [s.strip()] *)
Definition strip (s : pystr) : pystr := rstrip (lstrip s).

(** [sep.join(parts)] *)
Fixpoint join (sep : pystr) (parts : list pystr) : pystr :=
  match parts with
  | [] => []
  | [p] => p
  | p :: rest => p ++ sep ++ join sep rest
  end.

(** Decimal rendering of a non-negative integer inside an f-string. *)
Fixpoint digits_fuel (fuel : nat) (n : N) (acc : pystr) : pystr :=
  match fuel with
  | O => acc
  | S fuel' =>
      let acc' := (48 + n mod 10)%N :: acc in
      if (n <? 10)%N then acc' else digits_fuel fuel' (n / 10)%N acc'
  end.

Definition str_of_nat (n : nat) : pystr :=
  digits_fuel (S n) (N.of_nat n) [].

End Py.
Import Py.

(* ================================================================= *)
(** ** Exceptions, results, and the effect monad *)

(** The exception classes the code can meet.  All of them derive from
    [Exception]; [LibraryError] stands for whatever else an injected library
    raises (a corrupt file, a network failure, an API error). *)
Inductive exn : Type :=
| JSONDecodeError
| AttributeError
| TypeError
| ValueError (msg : pystr)
| ValidationError (field : string)
| OverflowError
| ImportError
| RuntimeError (msg : pystr)
| LibraryError (what : string).

Inductive result (A : Type) : Type :=
| Ok (a : A)
| Raise (e : exn).
Arguments Ok {A} a.
Arguments Raise {A} e.

(* ================================================================= *)
(** ** [datetime] and [timedelta] *)

Module Datetime.

(** A naive [datetime].  The calendar date is kept as its proleptic Gregorian
    ordinal ([date.toordinal()]): 1 is 0001-01-01 and [MAXORDINAL] is
    9999-12-31. *)
Record datetime : Type := mkDatetime {
  ordinal : Z;
  hour : Z;
  minute : Z;
  second : Z;
  microsecond : Z
}.

Definition MAXORDINAL : Z := 3652059.

Definition valid (d : datetime) : Prop :=
  1 <= ordinal d <= MAXORDINAL /\ 0 <= hour d < 24 /\ 0 <= minute d < 60
  /\ 0 <= second d < 60 /\ 0 <= microsecond d < 1000000.

(** A normalised [timedelta]: [0 <= seconds < 86400],
    [0 <= microseconds < 1000000]. *)
Record timedelta : Type := mkTimedelta {
  days : Z;
  seconds : Z;
  microseconds : Z
}.

Definition MAX_DELTA_DAYS : Z := 999999999.

(** [timedelta(days=n)] *)
Definition timedelta_of_days (n : Z) : result timedelta :=
  if Z.abs n >? MAX_DELTA_DAYS then Raise OverflowError
  else Ok (mkTimedelta n 0 0).

(** [datetime.__add__]: the sum is formed as a day, second and microsecond
    count, renormalised, and refused when the day leaves [1..MAXORDINAL]. *)
Definition add (d : datetime) (t : timedelta) : result datetime :=
  let us := microsecond d + microseconds t in
  let s := hour d * 3600 + minute d * 60 + second d + seconds t + us / 1000000 in
  let dd := ordinal d + days t + s / 86400 in
  let s' := s mod 86400 in
  if (0 <? dd) && (dd <=? MAXORDINAL) then
    Ok (mkDatetime dd (s' / 3600) ((s' mod 3600) / 60) ((s' mod 3600) mod 60)
                   (us mod 1000000))
  else Raise OverflowError.

(** The instant [n] whole days after [d], as a value (no range check). *)
Definition plus_days (d : datetime) (n : Z) : datetime :=
  mkDatetime (ordinal d + n) (hour d) (minute d) (second d) (microsecond d).

End Datetime.
Import Datetime.

(* ================================================================= *)
(** ** The world: everything outside the process *)

Inductive level : Type := DEBUG | INFO | WARNING | ERROR.

(** One entry per interaction with the outside: a log record (kept by level
    and message template), a clock reading, or a call into an injected
    library or the model API. *)
Inductive event : Type :=
| Log (lvl : level) (template : string)
| ClockRead
| PdfRead (content : bytes)
| Rasterize (content : bytes)
| ImageOpen (content : bytes)
| VisionCall (image_bytes : bytes) (mime_type : pystr)
| ModelCall (prompt : pystr).

Record world : Type := mkWorld {
  clock : datetime;        (* what [datetime.now()] returns *)
  journal : list event     (* interactions so far, oldest first *)
}.

(** The world after further interactions. *)
Definition logged (w : world) (evs : list event) : world :=
  mkWorld (clock w) (journal w ++ evs).

Definition M (A : Type) : Type := world -> world * result A.

Definition ret {A} (a : A) : M A := fun w => (w, Ok a).

Definition raise {A} (e : exn) : M A := fun w => (w, Raise e).

Definition bind {A B} (m : M A) (k : A -> M B) : M B :=
  fun w =>
    match m w with
    | (w', Ok a) => k a w'
    | (w', Raise e) => (w', Raise e)
    end.

(** [try: m  except Exception as e: h e] *)
Definition try_except {A} (m : M A) (h : exn -> M A) : M A :=
  fun w =>
    match m w with
    | (w', Ok a) => (w', Ok a)
    | (w', Raise e) => h e w'
    end.

Definition lift {A} (r : result A) : M A := fun w => (w, r).

Definition emit (e : event) : M unit :=
  fun w => (logged w [e], Ok tt).

Definition log (lvl : level) (template : string) : M unit :=
  emit (Log lvl template).

(** [datetime.now()] *)
Definition datetime_now : M datetime :=
  fun w => (logged w [ClockRead], Ok (clock w)).

Declare Scope monad_scope.
Delimit Scope monad_scope with monad.
Notation "x <- m ;; k" := (bind m (fun x => k))
  (at level 100, m at next level, right associativity) : monad_scope.
Notation "m ;;; k" := (bind m (fun _ => k))
  (at level 100, right associativity) : monad_scope.
Open Scope monad_scope.

(** The reply of the model API is a list of content blocks, each with or
    without a [text] attribute; the code concatenates the texts
    ([for block in message.content: if hasattr(block, "text"): ...]). *)
Definition block_texts (blocks : list (option pystr)) : pystr :=
  List.concat (List.map (fun b => match b with Some t => t | None => [] end) blocks).

(* ================================================================= *)
(** ** [WarrantyAnalyzer.extract_warranty_dates] *)

Module Dates.

(** [purchase_date or datetime.now()]: a [datetime] is always truthy, so the
    clock is read only when no purchase date was given. *)
Definition extract_warranty_dates
    (duration_months : option Z) (purchase_date : option datetime)
  : M (option datetime * option datetime) :=
  match duration_months with
  | None => ret (None, None)
  | Some m =>
      start_date <- match purchase_date with
                    | Some d => ret d
                    | None => datetime_now
                    end ;;
      delta <- lift (timedelta_of_days (m * 30)) ;;
      expiry_date <- lift (Datetime.add start_date delta) ;;
      ret (Some start_date, Some expiry_date)
  end.

End Dates.
Import Dates.

(* ================================================================= *)
(** ** Python values and [json.loads] *)

Module Json.

(** The values [json.loads] can produce. *)
Inductive pyval : Type :=
| PNone
| PBool (b : bool)
| PInt (z : Z)
| PFloat (f : float)
| PStr (s : pystr)
| PList (xs : list pyval)
| PDict (kvs : list (pystr * pyval)).

(** A [dict] with [str] keys, in insertion order, keys distinct. *)
Definition pydict := list (pystr * pyval).

Fixpoint dict_lookup (k : pystr) (d : pydict) : option pyval :=
  match d with
  | [] => None
  | (k', v) :: d' => if str_eqb k k' then Some v else dict_lookup k d'
  end.

(** [d[k] = v]: an existing key keeps its position. *)
Fixpoint dict_set (k : pystr) (v : pyval) (d : pydict) : pydict :=
  match d with
  | [] => [(k, v)]
  | (k', v') :: d' =>
      if str_eqb k k' then (k', v) :: d' else (k', v') :: dict_set k v d'
  end.

(** [d.get(k, default)]; [d.get(k)] is [dict_get k PNone d]. *)
Definition dict_get (k : pystr) (default : pyval) (d : pydict) : pyval :=
  match dict_lookup k d with
  | Some v => v
  | None => default
  end.

Definition ch (a : ascii) : char := N_of_ascii a.

(** The double quote. *)
Definition dquote : char := 34%N.

(** An ASCII literal in which every apostrophe stands for a double quote. *)
Definition pyq (s : string) : pystr :=
  List.map (fun c => if (c =? 39)%N then dquote else c) (py s).

Definition is_digit (c : char) : bool := ((48 <=? c) && (c <=? 57))%N.

Definition is_json_ws (c : char) : bool :=
  ((c =? 32) || (c =? 9) || (c =? 10) || (c =? 13))%N.

Fixpoint skip_ws (s : pystr) : pystr :=
  match s with
  | c :: s' => if is_json_ws c then skip_ws s' else s
  | [] => []
  end.

Fixpoint strip_prefix (p s : pystr) : option pystr :=
  match p, s with
  | [], _ => Some s
  | a :: p', b :: s' => if N.eqb a b then strip_prefix p' s' else None
  | _ :: _, [] => None
  end.

(** *** Numbers *)

Fixpoint span_digits (s : pystr) : pystr * pystr :=
  match s with
  | c :: s' =>
      if is_digit c then let (ds, r) := span_digits s' in (c :: ds, r)
      else ([], s)
  | [] => ([], [])
  end.

Definition Z_of_digits (ds : pystr) : Z :=
  fold_left (fun acc c => 10 * acc + (Z.of_N c - 48)) ds 0.

(** [float(text)] for a decimal literal [(-1)^neg * m * 10^e10], [0 <= m]:
    the nearest binary64 value, ties to even.  A negative exponent is a
    quotient; it is formed with more than 64 significant bits and a sticky
    bit, which rounds as the exact quotient does. *)
Definition float_of_decimal (neg : bool) (m : Z) (e10 : Z) : float :=
  let sgn (z : Z) := if neg then - z else z in
  if 0 <=? e10 then
    SF2Prim (binary_normalize prec emax (sgn (m * 10 ^ e10)) 0 neg)
  else
    let d := 10 ^ (- e10) in
    let k := Z.max 0 (Z.log2 d - Z.log2 m + 66) in
    let n := m * 2 ^ k in
    let q := 2 * (n / d) + (if n mod d =? 0 then 0 else 1) in
    SF2Prim (binary_normalize prec emax (sgn q) (- k - 1) neg).

(** The exponent part, when present: [e] or [E], an optional sign, and at
    least one digit. *)
Definition match_exponent (s : pystr) : option (Z * pystr) :=
  match s with
  | e :: r =>
      if ((e =? ch "e") || (e =? ch "E"))%N then
        let '(eneg, r1) :=
          match r with
          | c :: r' =>
              if (c =? ch "-")%N then (true, r')
              else if (c =? ch "+")%N then (false, r')
              else (false, r)
          | [] => (false, r)
          end in
        match span_digits r1 with
        | ([], _) => None
        | (ds, rest) =>
            Some (if eneg then - Z_of_digits ds else Z_of_digits ds, rest)
        end
      else None
  | [] => None
  end.

(** The optional minus sign. *)
Definition match_sign (s : pystr) : bool * pystr :=
  match s with
  | c :: r => if (c =? ch "-")%N then (true, r) else (false, s)
  | [] => (false, s)
  end.

(** The integer part: a single zero, or digits that do not start with zero. *)
Definition match_integer (s : pystr) : option (pystr * pystr) :=
  match s with
  | c :: r =>
      if is_digit c then
        Some (if (c =? ch "0")%N then ([c], r) else span_digits s)
      else None
  | [] => None
  end.

(** The fraction, when present: a dot and at least one digit. *)
Definition match_fraction (s : pystr) : pystr * pystr :=
  match s with
  | p :: r =>
      if (p =? ch ".")%N then
        match span_digits r with
        | ([], _) => ([], s)
        | (ds, rest) => (ds, rest)
        end
      else ([], s)
  | [] => ([], s)
  end.

(** A number: sign, integer part, fraction, exponent.  It is an [int] when
    there is neither fraction nor exponent, a [float] otherwise. *)
Definition match_number (s : pystr) : option (pyval * pystr) :=
  let (neg, s1) := match_sign s in
  match match_integer s1 with
  | None => None
  | Some (ip, s2) =>
      let (fp, s3) := match_fraction s2 in
      match fp, match_exponent s3 with
      | [], None =>
          let z := Z_of_digits ip in
          Some (PInt (if neg then - z else z), s3)
      | _, None =>
          Some (PFloat (float_of_decimal neg (Z_of_digits (ip ++ fp))
                                         (- len fp)), s3)
      | _, Some (e, s4) =>
          Some (PFloat (float_of_decimal neg (Z_of_digits (ip ++ fp))
                                         (e - len fp)), s4)
      end
  end.

(** *** Strings *)

Definition hex_value (c : char) : option N :=
  (if (48 <=? c) && (c <=? 57) then Some (c - 48)
   else if (97 <=? c) && (c <=? 102) then Some (c - 87)
   else if (65 <=? c) && (c <=? 70) then Some (c - 55)
   else None)%N.

Definition is_high_surrogate (c : N) : bool := ((55296 <=? c) && (c <=? 56319))%N.
Definition is_low_surrogate (c : N) : bool := ((56320 <=? c) && (c <=? 57343))%N.

(** Where the string scanner is: in plain text, after a backslash, or inside
    the four digits of a [\u] escape.  [after_high] remembers that the
    character just produced was an escaped high surrogate, which a directly
    following escaped low surrogate completes. *)
Inductive smode : Type :=
| Plain (after_high : bool)
| Escaped (after_high : bool)
| Hex (after_high : bool) (remaining : nat) (value : N).

(** The body of a string after its opening quote, up to and including the
    closing quote ([strict=True]: raw control characters are refused).
    [acc] holds the decoded characters, last first. *)
Fixpoint scanstring_from (mode : smode) (acc : pystr) (s : pystr)
  : option (pystr * pystr) :=
  match s with
  | [] => None
  | c :: r =>
      match mode with
      | Plain h =>
          if (c =? dquote)%N then Some (rev acc, r)
          else if (c =? ch "\")%N then scanstring_from (Escaped h) acc r
          else if (c <? 32)%N then None
          else scanstring_from (Plain false) (c :: acc) r
      | Escaped h =>
          if (c =? ch "u")%N then scanstring_from (Hex h 4 0%N) acc r
          else
            let simple (x : N) := scanstring_from (Plain false) (x :: acc) r in
            if (c =? dquote)%N then simple c
            else if (c =? ch "\")%N then simple c
            else if (c =? ch "/")%N then simple c
            else if (c =? ch "b")%N then simple 8%N
            else if (c =? ch "f")%N then simple 12%N
            else if (c =? ch "n")%N then simple 10%N
            else if (c =? ch "r")%N then simple 13%N
            else if (c =? ch "t")%N then simple 9%N
            else None
      | Hex h n v =>
          match hex_value c with
          | None => None
          | Some x =>
              let v' := (16 * v + x)%N in
              match n with
              | S (S n') => scanstring_from (Hex h (S n') v') acc r
              | _ =>
                  match h, acc with
                  | true, hi :: acc' =>
                      if is_low_surrogate v' then
                        scanstring_from (Plain false)
                          ((65536 + (hi - 55296) * 1024 + (v' - 56320))%N :: acc') r
                      else
                        scanstring_from (Plain (is_high_surrogate v')) (v' :: acc) r
                  | _, _ =>
                      scanstring_from (Plain (is_high_surrogate v')) (v' :: acc) r
                  end
              end
          end
      end
  end.

Definition scanstring (s : pystr) : option (pystr * pystr) :=
  scanstring_from (Plain false) [] s.

(** *** Values *)

(** Outcome of scanning one item: a value and the text after it, a syntax
    error, or recursion budget spent. *)
Inductive scan (A : Type) : Type :=
| Parsed (a : A) (rest : pystr)
| Malformed
| Exhausted.
Arguments Parsed {A} a rest.
Arguments Malformed {A}.
Arguments Exhausted {A}.

Definition of_option {A} (o : option (A * pystr)) : scan A :=
  match o with
  | Some (a, rest) => Parsed a rest
  | None => Malformed
  end.

(** The literals tried before a number: [null], [true], [false], [NaN],
    [Infinity], [-Infinity]. *)
Definition match_constant (s : pystr) : option (pyval * pystr) :=
  match strip_prefix (py "null") s with
  | Some r => Some (PNone, r)
  | None =>
  match strip_prefix (py "true") s with
  | Some r => Some (PBool true, r)
  | None =>
  match strip_prefix (py "false") s with
  | Some r => Some (PBool false, r)
  | None =>
  match strip_prefix (py "NaN") s with
  | Some r => Some (PFloat nan, r)
  | None =>
  match strip_prefix (py "Infinity") s with
  | Some r => Some (PFloat infinity, r)
  | None =>
  match strip_prefix (py "-Infinity") s with
  | Some r => Some (PFloat neg_infinity, r)
  | None => None
  end end end end end end.

(** [scan_once], [JSONObject] and [JSONArray] of the decoder.  [fuel] bounds
    the number of nested calls; [json_loads] supplies more than the text is
    long, which is never spent (lemma [scan_fuel] below). *)
Fixpoint scan_once (fuel : nat) (s : pystr) {struct fuel} : scan pyval :=
  match fuel with
  | O => Exhausted
  | S fuel' =>
      match s with
      | [] => Malformed
      | c :: r =>
          if (c =? dquote)%N then
            match scanstring r with
            | Some (str, rest) => Parsed (PStr str) rest
            | None => Malformed
            end
          else if (c =? ch "{")%N then
            match skip_ws r with
            | [] => Malformed
            | c1 :: r1 =>
                if (c1 =? ch "}")%N then Parsed (PDict []) r1
                else
                  match parse_members fuel' [] (c1 :: r1) with
                  | Parsed kvs rest => Parsed (PDict kvs) rest
                  | Malformed => Malformed
                  | Exhausted => Exhausted
                  end
            end
          else if (c =? ch "[")%N then
            match skip_ws r with
            | [] => Malformed
            | c1 :: r1 =>
                if (c1 =? ch "]")%N then Parsed (PList []) r1
                else
                  match parse_elements fuel' [] (c1 :: r1) with
                  | Parsed xs rest => Parsed (PList xs) rest
                  | Malformed => Malformed
                  | Exhausted => Exhausted
                  end
            end
          else
            match match_constant s with
            | Some (v, rest) => Parsed v rest
            | None => of_option (match_number s)
            end
      end
  end

with parse_members (fuel : nat) (acc : pydict) (s : pystr) {struct fuel}
  : scan pydict :=
  match fuel with
  | O => Exhausted
  | S fuel' =>
      match s with
      | [] => Malformed
      | c :: r =>
          if (c =? dquote)%N then
            match scanstring r with
            | None => Malformed
            | Some (key, r1) =>
                match skip_ws r1 with
                | [] => Malformed
                | c2 :: r2 =>
                    if (c2 =? ch ":")%N then
                      match scan_once fuel' (skip_ws r2) with
                      | Malformed => Malformed
                      | Exhausted => Exhausted
                      | Parsed v r3 =>
                          let acc' := dict_set key v acc in
                          match skip_ws r3 with
                          | [] => Malformed
                          | c4 :: r4 =>
                              if (c4 =? ch "}")%N then Parsed acc' r4
                              else if (c4 =? ch ",")%N then
                                parse_members fuel' acc' (skip_ws r4)
                              else Malformed
                          end
                      end
                    else Malformed
                end
            end
          else Malformed
      end
  end

with parse_elements (fuel : nat) (acc : list pyval) (s : pystr) {struct fuel}
  : scan (list pyval) :=
  match fuel with
  | O => Exhausted
  | S fuel' =>
      match scan_once fuel' s with
      | Malformed => Malformed
      | Exhausted => Exhausted
      | Parsed v r1 =>
          match skip_ws r1 with
          | [] => Malformed
          | c2 :: r2 =>
              if (c2 =? ch "]")%N then Parsed (rev (v :: acc)) r2
              else if (c2 =? ch ",")%N then
                parse_elements fuel' (v :: acc) (skip_ws r2)
              else Malformed
          end
      end
  end.

(** A [str] that starts with the byte order mark U+FEFF. *)
Definition has_bom (s : pystr) : bool :=
  match s with
  | c :: _ => (c =? 65279)%N
  | [] => false
  end.

(** [json.loads(s)] for a [str] argument.  A byte order mark, a syntax error
    or text after the value is [JSONDecodeError].  The limits of the
    interpreter (nesting depth, digits of an integer) are not part of the
    model. *)
Definition json_loads (s : pystr) : result pyval :=
  if has_bom s then Raise JSONDecodeError
  else
    match scan_once (2 * List.length s + 2) (skip_ws s) with
    | Parsed v rest =>
        match skip_ws rest with
        | [] => Ok v
        | _ :: _ => Raise JSONDecodeError
        end
    | Malformed => Raise JSONDecodeError
    | Exhausted => Raise (LibraryError "RecursionError")
    end.

End Json.
Import Json.

(* ================================================================= *)
(** ** [app/models.py] *)

Module Models.

(** [DocumentType]: the values of the enumeration. *)
Inductive DocumentType : Type := PDF | PNG | JPEG | JPG.

Definition DocumentType_value (t : DocumentType) : pystr :=
  match t with
  | PDF => py "application/pdf"
  | PNG => py "image/png"
  | JPEG => py "image/jpeg"
  | JPG => py "image/jpg"
  end.

Definition DocumentType_members : list DocumentType := [PDF; PNG; JPEG; JPG].

(** [0.0 <= f <= 1.0] on floats; false on NaN. *)
Definition unit_interval (f : float) : bool :=
  PrimFloat.leb 0%float f && PrimFloat.leb f 1%float.

(** [OCRResult] *)
Record OCRResult : Type := mkOCRResult {
  text : pystr;
  confidence : float;
  page_count : Z
}.

(** [OCRResult(text=t, confidence=c, page_count=n)]: the model enforces
    [Field(ge=0.0, le=1.0)] on [confidence]. *)
Definition new_OCRResult (t : pystr) (c : float) (n : Z) : result OCRResult :=
  if unit_interval c then Ok (mkOCRResult t c n)
  else Raise (ValidationError "confidence").

(** [ClaudeAnalysisResult] *)
Record ClaudeAnalysisResult : Type := mkClaudeAnalysisResult {
  summary : pystr;
  duration : option pystr;
  duration_months : option Z;
  coverage_items : list pystr;
  exclusions : list pystr;
  limitations : list pystr;
  claim_procedure : option pystr;
  claim_contacts : pydict;
  required_docs : list pystr;
  critical_dates : list pydict;
  transferable : option bool;
  extended_options : option pystr;
  critical_highlights : list pydict;
  warning_highlights : list pydict;
  info_highlights : list pydict;
  confidence_score : float
}.

(** *** Field validation

    The model is validated in the default (lax) mode.  What a [str] converts
    to when a number or a bool is expected follows the validator's own
    grammar, which is taken as given. *)
Record lax_str : Type := mkLaxStr {
  str_as_int : pystr -> option Z;
  str_as_float : pystr -> option float;
  str_as_bool : pystr -> option bool
}.

(** [float(z)], rounded to nearest. *)
Definition float_of_int (z : Z) : float :=
  SF2Prim (binary_normalize prec emax z 0 false).

(** The integer a float denotes, when it denotes one. *)
Definition exact_int (f : float) : option Z :=
  match Prim2SF f with
  | S754_zero _ => Some 0
  | S754_finite s m e =>
      let mag :=
        if 0 <=? e then Some (Zpos m * 2 ^ e)
        else if Zpos m mod 2 ^ (- e) =? 0 then Some (Zpos m / 2 ^ (- e))
        else None in
      match mag with
      | Some z => Some (if s then - z else z)
      | None => None
      end
  | _ => None
  end.

(** [int(f)] for a finite float: truncation toward zero. *)
Definition trunc_int (f : float) : option Z :=
  match Prim2SF f with
  | S754_zero _ => Some 0
  | S754_finite s m e =>
      let mag := if 0 <=? e then Zpos m * 2 ^ e else Zpos m / 2 ^ (- e) in
      Some (if s then - mag else mag)
  | _ => None
  end.

Section Validation.

Variable lax : lax_str.

Definition field (A : Type) := string -> pyval -> result A.

Definition of_opt {A} (name : string) (o : option A) : result A :=
  match o with
  | Some a => Ok a
  | None => Raise (ValidationError name)
  end.

Definition v_str : field pystr := fun name v =>
  match v with
  | PStr s => Ok s
  | _ => Raise (ValidationError name)
  end.

Definition v_int : field Z := fun name v =>
  match v with
  | PInt z => Ok z
  | PBool b => Ok (if b then 1 else 0)
  | PFloat f => of_opt name (exact_int f)
  | PStr s => of_opt name (str_as_int lax s)
  | _ => Raise (ValidationError name)
  end.

Definition v_float : field float := fun name v =>
  match v with
  | PFloat f => Ok f
  | PInt z => Ok (float_of_int z)
  | PBool b => Ok (if b then 1%float else 0%float)
  | PStr s => of_opt name (str_as_float lax s)
  | _ => Raise (ValidationError name)
  end.

Definition v_bool : field bool := fun name v =>
  match v with
  | PBool b => Ok b
  | PInt z =>
      if z =? 0 then Ok false
      else if z =? 1 then Ok true
      else Raise (ValidationError name)
  | PFloat f =>
      if PrimFloat.eqb f 0%float then Ok false
      else if PrimFloat.eqb f 1%float then Ok true
      else Raise (ValidationError name)
  | PStr s => of_opt name (str_as_bool lax s)
  | _ => Raise (ValidationError name)
  end.

Definition v_dict : field pydict := fun name v =>
  match v with
  | PDict d => Ok d
  | _ => Raise (ValidationError name)
  end.

(** [T | None] *)
Definition v_optional {A} (f : field A) : field (option A) := fun name v =>
  match v with
  | PNone => Ok None
  | _ => match f name v with
         | Ok a => Ok (Some a)
         | Raise e => Raise e
         end
  end.

Fixpoint v_all {A} (f : field A) (name : string) (xs : list pyval)
  : result (list A) :=
  match xs with
  | [] => Ok []
  | x :: xs' =>
      match f name x with
      | Raise e => Raise e
      | Ok a =>
          match v_all f name xs' with
          | Raise e => Raise e
          | Ok l => Ok (a :: l)
          end
      end
  end.

(** [list[T]] *)
Definition v_list {A} (f : field A) : field (list A) := fun name v =>
  match v with
  | PList xs => v_all f name xs
  | _ => Raise (ValidationError name)
  end.

(** [float = Field(ge=0.0, le=1.0)] *)
Definition v_unit_float : field float := fun name v =>
  match v_float name v with
  | Ok f => if unit_interval f then Ok f else Raise (ValidationError name)
  | Raise e => Raise e
  end.

End Validation.

End Models.
Import Models.

(** Sequencing of results. *)
Definition rbind {A B} (r : result A) (k : A -> result B) : result B :=
  match r with
  | Ok a => k a
  | Raise e => Raise e
  end.

Notation "'let?' x ':=' r 'in' k" := (rbind r (fun x => k))
  (at level 10, x name, r at level 100, k at level 200).

(* ================================================================= *)
(** ** [app/warranty_analyzer.py] *)

Module WarrantyAnalyzer.

(** [re.search(r"\{.*\}", s, re.DOTALL)]: the leftmost opening brace that a
    closing brace follows, extended (the star is greedy and the dot matches
    every character) to the last closing brace of [s]. *)
Fixpoint upto_last (c : char) (s : pystr) : option pystr :=
  match s with
  | [] => None
  | x :: r =>
      match upto_last c r with
      | Some p => Some (x :: p)
      | None => if (x =? c)%N then Some [x] else None
      end
  end.

Fixpoint re_search_braces (s : pystr) : option pystr :=
  match s with
  | [] => None
  | x :: r =>
      if (x =? ch "{")%N then
        match upto_last (ch "}") r with
        | Some body => Some (x :: body)
        | None => None
        end
      else re_search_braces r
  end.

(** The dictionary [_parse_analysis_response] returns: always these sixteen
    keys. *)
Record analysis_data : Type := mkAnalysisData {
  k_summary : pyval;
  k_duration : pyval;
  k_duration_months : pyval;
  k_coverage_items : pyval;
  k_exclusions : pyval;
  k_limitations : pyval;
  k_claim_procedure : pyval;
  k_claim_contacts : pyval;
  k_required_docs : pyval;
  k_critical_dates : pyval;
  k_transferable : pyval;
  k_extended_options : pyval;
  k_critical_highlights : pyval;
  k_warning_highlights : pyval;
  k_info_highlights : pyval;
  k_confidence_score : pyval
}.

Definition set_confidence_score (r : analysis_data) (v : pyval) : analysis_data :=
  mkAnalysisData (k_summary r) (k_duration r) (k_duration_months r)
    (k_coverage_items r) (k_exclusions r) (k_limitations r)
    (k_claim_procedure r) (k_claim_contacts r) (k_required_docs r)
    (k_critical_dates r) (k_transferable r) (k_extended_options r)
    (k_critical_highlights r) (k_warning_highlights r) (k_info_highlights r) v.

(** [data.get]: only a [dict] has the attribute. *)
Definition get_attr (data : pyval) : result pydict :=
  match data with
  | PDict d => Ok d
  | _ => Raise AttributeError
  end.

(** [0.0 <= v <= 1.0] as Python evaluates it: exact on [int] and [bool],
    IEEE on [float], not defined on anything else. *)
Definition between_0_and_1 (v : pyval) : result bool :=
  match v with
  | PFloat f => Ok (unit_interval f)
  | PInt z => Ok ((0 <=? z) && (z <=? 1))
  | PBool _ => Ok true
  | _ => Raise TypeError
  end.

Definition failure_summary : pystr := py "Failed to analyze warranty contract".

(** The "minimal valid response" of the decode-error handler. *)
Definition minimal_response : analysis_data :=
  mkAnalysisData (PStr failure_summary) PNone PNone (PList []) (PList [])
    (PList []) PNone (PDict []) (PList []) (PList []) PNone PNone
    (PList []) (PList []) (PList []) (PFloat 0.1%float).


(** The payload handed to the decoder: the brace span when there is one,
    the whole reply otherwise. *)
Definition json_payload (response_text : pystr) : pystr :=
  match re_search_braces response_text with
  | Some json_str => json_str
  | None => response_text
  end.

(** "Validate and set defaults". *)
Definition with_defaults (d : pydict) : analysis_data :=
  mkAnalysisData
    (dict_get (py "summary") (PStr []) d)
    (dict_get (py "duration") PNone d)
    (dict_get (py "duration_months") PNone d)
    (dict_get (py "coverage_items") (PList []) d)
    (dict_get (py "exclusions") (PList []) d)
    (dict_get (py "limitations") (PList []) d)
    (dict_get (py "claim_procedure") PNone d)
    (dict_get (py "claim_contacts") (PDict []) d)
    (dict_get (py "required_docs") (PList []) d)
    (dict_get (py "critical_dates") (PList []) d)
    (dict_get (py "transferable") PNone d)
    (dict_get (py "extended_options") PNone d)
    (dict_get (py "critical_highlights") (PList []) d)
    (dict_get (py "warning_highlights") (PList []) d)
    (dict_get (py "info_highlights") (PList []) d)
    (dict_get (py "confidence_score") (PFloat 0.5%float) d).

Definition _parse_analysis_response (response_text : pystr) : M analysis_data :=
  try_except
    (data <- lift (json_loads (json_payload response_text)) ;;
     d <- lift (get_attr data) ;;
     let result := with_defaults d in
     in_range <- lift (between_0_and_1 (k_confidence_score result)) ;;
     if negb in_range then
       log WARNING "Invalid confidence score: {}, using 0.5" ;;;
       ret (set_confidence_score result (PFloat 0.5%float))
     else ret result)
    (fun e =>
       match e with
       | JSONDecodeError =>
           log ERROR "Failed to parse JSON response: {e}" ;;;
           log DEBUG "Response text: {response_text}" ;;;
           ret minimal_response
       | _ => raise e
       end).

Section Analyzer.

Variable lax : lax_str.

(** [ClaudeAnalysisResult] built from the sixteen entries of the dictionary,
    passed as keyword arguments. *)
Definition new_ClaudeAnalysisResult (a : analysis_data)
  : result ClaudeAnalysisResult :=
  let dicts := v_list (v_dict) in
  let strs := v_list (v_str) in
  let? f1 := v_str "summary" (k_summary a) in
  let? f2 := v_optional v_str "duration" (k_duration a) in
  let? f3 := v_optional (v_int lax) "duration_months" (k_duration_months a) in
  let? f4 := strs "coverage_items" (k_coverage_items a) in
  let? f5 := strs "exclusions" (k_exclusions a) in
  let? f6 := strs "limitations" (k_limitations a) in
  let? f7 := v_optional v_str "claim_procedure" (k_claim_procedure a) in
  let? f8 := v_dict "claim_contacts" (k_claim_contacts a) in
  let? f9 := strs "required_docs" (k_required_docs a) in
  let? f10 := dicts "critical_dates" (k_critical_dates a) in
  let? f11 := v_optional (v_bool lax) "transferable" (k_transferable a) in
  let? f12 := v_optional v_str "extended_options" (k_extended_options a) in
  let? f13 := dicts "critical_highlights" (k_critical_highlights a) in
  let? f14 := dicts "warning_highlights" (k_warning_highlights a) in
  let? f15 := dicts "info_highlights" (k_info_highlights a) in
  let? f16 := v_unit_float lax "confidence_score" (k_confidence_score a) in
  Ok (mkClaudeAnalysisResult f1 f2 f3 f4 f5 f6 f7 f8 f9 f10 f11 f12 f13 f14
        f15 f16).

(** The parsing half of [analyze_warranty]: "Parse JSON response" and
    "Create result object". *)
Definition parse (response_text : pystr) : M ClaudeAnalysisResult :=
  analysis_data <- _parse_analysis_response response_text ;;
  lift (new_ClaudeAnalysisResult analysis_data).

(** The instruction text is fixed; the contract text is spliced between its
    two pieces. *)
Variables prompt_head prompt_tail : pystr.

Definition _create_analysis_prompt (contract_text : pystr) : pystr :=
  prompt_head ++ contract_text ++ prompt_tail.

(** [client.messages.create]: the content blocks of the reply, each with or
    without a [text] attribute. *)
Variable messages_create : pystr -> result (list (option pystr)).

Definition analyze_warranty (contract_text : pystr) : M ClaudeAnalysisResult :=
  log INFO "Analyzing warranty contract ({} characters)" ;;;
  try_except
    (let prompt := _create_analysis_prompt contract_text in
     emit (ModelCall prompt) ;;;
     message <- lift (messages_create prompt) ;;
     let response_text := block_texts message in
     log DEBUG "Claude response: {}..." ;;;
     result <- parse response_text ;;
     log INFO "Warranty analysis complete (confidence: {})" ;;;
     ret result)
    (fun e => log ERROR "Error analyzing warranty: {e}" ;;; raise e).

End Analyzer.

End WarrantyAnalyzer.
Import WarrantyAnalyzer.

(* ================================================================= *)
(** ** [app/document_processor.py] *)

Module DocumentProcessor.

(** The libraries the processor calls, as functions of their arguments:
    PyPDF2, pdf2image, Pillow and the vision endpoint of the model API.  Each
    may raise. *)
Record capabilities (image : Type) : Type := mkCapabilities {
  (* [PdfReader(io.BytesIO(content)).pages], each page with what its
     [extract_text()] gives *)
  pdf_pages : bytes -> result (list (result pystr));
  (* [convert_from_bytes(content, dpi=200, fmt="png")]; [None] when the
     pdf2image package cannot be imported *)
  pdf2image : option (bytes -> result (list image));
  (* [Image.open(io.BytesIO(content))] *)
  image_open : bytes -> result image;
  image_mode : image -> pystr;
  image_size : image -> Z * Z;
  (* [Image.new("RGB", size, (255, 255, 255))] *)
  image_new_rgb : Z * Z -> result image;
  (* [image.convert("RGBA")] *)
  image_convert_rgba : image -> result image;
  (* [background.paste(image, mask=...)]: the background afterwards; the flag
     says whether the alpha band of [image] is the mask *)
  image_paste : image -> image -> bool -> result image;
  (* [image.resize(new_size, Image.Resampling.LANCZOS)] *)
  image_resize : image -> Z * Z -> result image;
  (* [image.save(buffer, format="PNG", optimize=flag)], then the buffer *)
  image_save_png : image -> bool -> result bytes;
  (* [client.messages.create] with one image and the extraction instruction:
     the content blocks of the reply *)
  vision_create : bytes -> pystr -> result (list (option pystr))
}.

Section Processor.

Variable image : Type.
Variable cap : capabilities image.

Definition newline : char := 10%N.

(** [f"--- Page {n} ---\n{text}"] *)
Definition page_part (n : nat) (text : pystr) : pystr :=
  py "--- Page " ++ str_of_nat n ++ py " ---" ++ [newline] ++ text.

Definition paragraph_break : pystr := [newline; newline].

Definition _extract_text_with_claude_vision
    (image_bytes : bytes) (mime_type : pystr) : M pystr :=
  try_except
    (emit (VisionCall image_bytes mime_type) ;;;
     message <- lift (vision_create cap image_bytes mime_type) ;;
     let extracted_text := block_texts message in
     log INFO "Extracted {} characters from image using Claude Vision" ;;;
     ret (strip extracted_text))
    (fun e =>
       log ERROR "Claude Vision API error: {e}" ;;;
       raise (RuntimeError (py "Failed to extract text with Claude Vision: {e}"))).

Definition max_dimension : Z := 2048.

(** [tuple(int(dim * ratio) for dim in image.size)] with
    [ratio = max_dimension / max(image.size)], in binary64. *)
Definition scaled_size (size : Z * Z) : result (Z * Z) :=
  let (w, h) := size in
  let ratio := PrimFloat.div (float_of_int max_dimension)
                             (float_of_int (Z.max w h)) in
  match trunc_int (PrimFloat.mul (float_of_int w) ratio),
        trunc_int (PrimFloat.mul (float_of_int h) ratio) with
  | Some w', Some h' => Ok (w', h')
  | _, _ => Raise OverflowError
  end.

Definition needs_flattening (mode : pystr) : bool :=
  str_eqb mode (py "RGBA") || str_eqb mode (py "LA") || str_eqb mode (py "P").

(** The body of the [try] in [_optimize_image]. *)
Definition optimize_steps (image_bytes : bytes) : M bytes :=
  emit (ImageOpen image_bytes) ;;;
  image0 <- lift (image_open cap image_bytes) ;;
  image1 <-
    (if needs_flattening (image_mode cap image0) then
       background <- lift (image_new_rgb cap (image_size cap image0)) ;;
       converted <-
         (if str_eqb (image_mode cap image0) (py "P")
          then lift (image_convert_rgba cap image0)
          else ret image0) ;;
       lift (image_paste cap background converted
               (str_eqb (image_mode cap converted) (py "RGBA")))
     else ret image0) ;;
  image2 <-
    (let (w, h) := image_size cap image1 in
     if Z.max w h >? max_dimension then
       new_size <- lift (scaled_size (w, h)) ;;
       resized <- lift (image_resize cap image1 new_size) ;;
       log DEBUG "Resized image to {new_size}" ;;;
       ret resized
     else ret image1) ;;
  lift (image_save_png cap image2 true).

Definition _optimize_image (image_bytes : bytes) : M bytes :=
  try_except
    (optimize_steps image_bytes)
    (fun e =>
       log WARNING "Image optimization failed, using original: {e}" ;;;
       ret image_bytes).

Definition image_confidence (extracted_text : pystr) : float :=
  if len extracted_text >? 50 then 0.88%float else 0.65%float.

Definition _process_image_with_claude
    (file_content : bytes) (mime_type : pystr) : M OCRResult :=
  log INFO "Processing image with Claude Vision (type: {mime_type})" ;;;
  try_except
    (optimized_image <- _optimize_image file_content ;;
     extracted_text <- _extract_text_with_claude_vision optimized_image mime_type ;;
     let confidence := image_confidence extracted_text in
     lift (new_OCRResult (strip extracted_text) confidence 1))
    (fun e => log ERROR "Error processing image: {e}" ;;; raise e).

(** The page limit of the scanned path: [images[:10]]. *)
Definition page_cap : nat := 10.

(** The loop over [enumerate(images[:10], 1)], from index [idx] on. *)
Fixpoint ocr_pages (idx : nat) (images : list image) : M (list pystr) :=
  match images with
  | [] => ret []
  | img :: rest =>
      log DEBUG "Processing page {idx} with Claude Vision" ;;;
      img_bytes <- lift (image_save_png cap img false) ;;
      page_text <- _extract_text_with_claude_vision img_bytes
                     (DocumentType_value PNG) ;;
      text_parts <- ocr_pages (S idx) rest ;;
      ret (page_part idx page_text :: text_parts)
  end.

Definition scanned_confidence (extracted_text : pystr) : float :=
  if len extracted_text >? 100 then 0.85%float else 0.6%float.

Definition _process_scanned_pdf (file_content : bytes) (page_count : Z)
  : M OCRResult :=
  log INFO "Processing scanned PDF with Claude Vision" ;;;
  try_except
    (convert_from_bytes <-
       match pdf2image cap with
       | Some f => ret f
       | None => raise ImportError
       end ;;
     emit (Rasterize file_content) ;;;
     images <- lift (convert_from_bytes file_content) ;;
     log INFO "Converted PDF to {} images" ;;;
     text_parts <- ocr_pages 1 (firstn page_cap images) ;;
     let extracted_text := join paragraph_break text_parts in
     let confidence := scanned_confidence extracted_text in
     lift (new_OCRResult (strip extracted_text) confidence (Z.of_nat (List.length images))))
    (fun e =>
       match e with
       | ImportError =>
           log ERROR "pdf2image library not available, cannot process scanned PDFs" ;;;
           raise (ValueError (py "Cannot process scanned PDFs without pdf2image library"))
       | _ => log ERROR "Error processing scanned PDF: {e}" ;;; raise e
       end).

(** The loop over [enumerate(reader.pages, 1)], from page [page_num] on:
    the parts of the pages whose text is not blank. *)
Fixpoint extract_pages (page_num : nat) (pages : list (result pystr))
  : M (list pystr) :=
  match pages with
  | [] => ret []
  | page :: rest =>
      log DEBUG "Extracting text from page {page_num}/{page_count}" ;;;
      text <- lift page ;;
      text_parts <- extract_pages (S page_num) rest ;;
      ret (match strip text with
           | [] => text_parts
           | _ :: _ => page_part page_num text :: text_parts
           end)
  end.

(** The threshold under which a PDF counts as scanned. *)
Definition scanned_threshold : Z := 50.

Definition native_confidence (extracted_text : pystr) : float :=
  if len extracted_text >? 100 then 0.95%float else 0.7%float.

Definition _process_pdf (file_content : bytes) : M OCRResult :=
  log INFO "Processing PDF document" ;;;
  try_except
    (emit (PdfRead file_content) ;;;
     pages <- lift (pdf_pages cap file_content) ;;
     let page_count := Z.of_nat (List.length pages) in
     text_parts <- extract_pages 1 pages ;;
     let extracted_text := join paragraph_break text_parts in
     if len (strip extracted_text) <? scanned_threshold then
       log WARNING "PDF appears to be scanned/image-based, using Claude Vision for OCR" ;;;
       _process_scanned_pdf file_content page_count
     else
       let confidence := native_confidence extracted_text in
       lift (new_OCRResult (strip extracted_text) confidence page_count))
    (fun e => log ERROR "Error processing PDF: {e}" ;;; raise e).

Definition is_image_type (mime_type : pystr) : bool :=
  existsb (fun t => str_eqb mime_type (DocumentType_value t)) [PNG; JPEG; JPG].

Definition unsupported (mime_type : pystr) : exn :=
  ValueError (py "Unsupported document type: " ++ mime_type).

Definition process_document
    (file_content : bytes) (file_name : pystr) (mime_type : pystr) : M OCRResult :=
  log INFO "Processing document: {file_name} (type: {mime_type})" ;;;
  try_except
    (if str_eqb mime_type (DocumentType_value PDF) then
       _process_pdf file_content
     else if is_image_type mime_type then
       _process_image_with_claude file_content mime_type
     else raise (unsupported mime_type))
    (fun e => log ERROR "Error processing document {file_name}: {e}" ;;; raise e).

End Processor.

End DocumentProcessor.
Import DocumentProcessor.

(* ================================================================= *)
(** ** Observations and reference definitions *)

(** *** On results and the journal *)

Definition rmap {A B} (f : A -> B) (r : result A) : result B :=
  match r with
  | Ok a => Ok (f a)
  | Raise e => Raise e
  end.

(** [returns m P]: whenever [m] returns a value, the value satisfies [P]. *)
Definition returns {A} (m : M A) (P : A -> Prop) : Prop :=
  forall w w' a, m w = (w', Ok a) -> P a.

Definition is_log (e : event) : Prop :=
  match e with Log _ _ => True | _ => False end.

(** The interactions other than log records. *)
Fixpoint calls (evs : list event) : list event :=
  match evs with
  | [] => []
  | Log _ _ :: rest => calls rest
  | e :: rest => e :: calls rest
  end.

(** The image payloads submitted to the vision endpoint, in order. *)
Fixpoint vision_inputs (evs : list event) : list bytes :=
  match evs with
  | [] => []
  | VisionCall b _ :: rest => b :: vision_inputs rest
  | _ :: rest => vision_inputs rest
  end.

(** No white space at the front. *)
Definition no_lead (s : pystr) : Prop :=
  match s with
  | [] => True
  | c :: _ => isspace c = false
  end.

(** *** On the reply parser *)

(** What the parser writes to the log on its two degraded paths. *)
Definition decode_error_log : list event :=
  [Log ERROR "Failed to parse JSON response: {e}";
   Log DEBUG "Response text: {response_text}"].

Definition bad_score_log : list event :=
  [Log WARNING "Invalid confidence score: {}, using 0.5"].


(** *** On text acquisition *)

Section Reference.

Variable image : Type.
Variable cap : capabilities image.

(** The text of the native path, in the words of the specification: the
    extractable text of each page, under a page-boundary marker, pages
    without text left out, joined by blank lines. *)
Fixpoint native_parts (page_num : nat) (texts : list pystr) : list pystr :=
  match texts with
  | [] => []
  | t :: rest =>
      match strip t with
      | [] => native_parts (S page_num) rest
      | _ :: _ => page_part page_num t :: native_parts (S page_num) rest
      end
  end.

Definition native_text (texts : list pystr) : pystr :=
  join paragraph_break (native_parts 1 texts).

(** The PNG encodings of the images that can be encoded. *)
Definition encodings (imgs : list image) : list bytes :=
  flat_map (fun img => match image_save_png cap img false with
                       | Ok b => [b]
                       | Raise _ => []
                       end) imgs.

(** What vision OCR reads on one rasterised page. *)
Definition ocr_text (img : image) : pystr :=
  match image_save_png cap img false with
  | Ok b =>
      match vision_create cap b (DocumentType_value PNG) with
      | Ok blocks => strip (block_texts blocks)
      | Raise _ => []
      end
  | Raise _ => []
  end.

(** The page is encoded and read without error. *)
Definition page_ok (img : image) : Prop :=
  exists b blocks,
    image_save_png cap img false = Ok b
    /\ vision_create cap b (DocumentType_value PNG) = Ok blocks.

Fixpoint ocr_parts (idx : nat) (imgs : list image) : list pystr :=
  match imgs with
  | [] => []
  | img :: rest => page_part idx (ocr_text img) :: ocr_parts (S idx) rest
  end.

(** The text of the OCR path: what is read on the first ten pages, each
    under its page marker, joined by blank lines. *)
Definition ocr_document_text (images : list image) : pystr :=
  join paragraph_break (ocr_parts 1 (firstn page_cap images)).



End Reference.

(* ================================================================= *)
(** ** Concrete inputs used in examples *)

Module Samples.

(** A purchase on 2021-07-29 at 09:30, the last day of the calendar, and a
    world whose clock shows 2024-04-24 and whose journal is empty. *)
Definition purchase : datetime := mkDatetime 738000 9 30 0 0.
Definition last_day : datetime := mkDatetime 3652059 0 0 0 0.
Definition quiet : world := mkWorld (mkDatetime 739000 0 0 0 0) [].

(** A validator that converts no string at all. *)
Definition no_str_coercion : lax_str :=
  mkLaxStr (fun _ => None) (fun _ => None) (fun _ => None).

Definition reply_null_score : pystr :=
  pyq "{'summary': 'Two years on parts', 'duration_months': 24, 'confidence_score': null}".
Definition reply_array : pystr := pyq "['Two years on parts']".
Definition reply_null_summary : pystr :=
  pyq "{'summary': null, 'confidence_score': 0.9}".

(** A model endpoint that answers every prompt with the same single text
    block. *)
Definition canned_reply (reply : pystr) : pystr -> result (list (option pystr)) :=
  fun _ => Ok [Some reply].

Definition sample_contract : pystr :=
  py "LIMITED WARRANTY. Warranty Period: 24 months from date of purchase.".

Definition sample_page_text : pystr := sample_contract.

(** The first bytes of a PDF file. *)
Definition scanned_contract : bytes := [Byte.x25; Byte.x50; Byte.x44; Byte.x46].

Definition page_bytes : list Byte.byte :=
  [Byte.x01; Byte.x02; Byte.x03; Byte.x04; Byte.x05; Byte.x06; Byte.x07;
   Byte.x08; Byte.x09; Byte.x0a; Byte.x0b; Byte.x0c; Byte.x0d; Byte.x0e;
   Byte.x0f; Byte.x10; Byte.x11; Byte.x12; Byte.x13; Byte.x14].

(** A document scanner: every PDF has [n] pages without a text layer and
    rasterises to [n] images (an image is represented by its PNG encoding, a
    single byte numbering the page from [x01]); vision OCR reads [page_text]
    on each. *)
Definition scanner (n : nat) (page_text : pystr) : capabilities bytes :=
  {| pdf_pages := fun _ => Ok (repeat (Ok []) n);
     pdf2image := Some (fun _ => Ok (List.map (fun b => [b]) (firstn n page_bytes)));
     image_open := fun b => Ok b;
     image_mode := fun _ => py "RGB";
     image_size := fun _ => (1700, 2200);
     image_new_rgb := fun _ => Ok [];
     image_convert_rgba := fun b => Ok b;
     image_paste := fun bg _ _ => Ok bg;
     image_resize := fun b _ => Ok b;
     image_save_png := fun b _ => Ok b;
     vision_create := fun _ _ => Ok [Some page_text] |}.

Definition fifteen_pages : capabilities bytes := scanner 15 sample_page_text.

Definition fifteen_images : list bytes :=
  List.map (fun b => [b]) (firstn 15 page_bytes).

(** A PDF reader: every PDF has a text layer, [texts] page by page; no
    rasteriser is installed and no image can be decoded. *)
Definition text_pdf (texts : list pystr) : capabilities bytes :=
  {| pdf_pages := fun _ => Ok (List.map Ok texts);
     pdf2image := None;
     image_open := fun _ => Raise (LibraryError "UnidentifiedImageError");
     image_mode := fun _ => py "RGB";
     image_size := fun _ => (0, 0);
     image_new_rgb := fun _ => Ok [];
     image_convert_rgba := fun b => Ok b;
     image_paste := fun bg _ _ => Ok bg;
     image_resize := fun b _ => Ok b;
     image_save_png := fun b _ => Ok b;
     vision_create := fun _ _ => Ok [] |}.


End Samples.
Import Samples.

(* ================================================================= *)
(** ** [app/config.py] *)

Module Config.

(** [s.split(sep)] for a separator of one character: the pieces between
    the separators, empty pieces included. *)
Fixpoint split_on (sep : char) (s : pystr) : list pystr :=
  match s with
  | [] => [[]]
  | c :: r =>
      if (c =? sep)%N then [] :: split_on sep r
      else
        match split_on sep r with
        | p :: ps => (c :: p) :: ps
        | [] => [[c]]
        end
  end.

(** [Settings.parse_allowed_origins]: the validator receives either the raw
    string of the environment or a list. *)
Definition parse_allowed_origins (v : pystr + list pystr) : list pystr :=
  match v with
  | inl s => List.map strip (split_on (ch ",") s)
  | inr origins => origins
  end.

End Config.
Import Config.

(* ================================================================= *)
(** ** Further observations *)

(** A log record below the ERROR level, or a call. *)
Definition not_error (e : event) : Prop :=
  match e with
  | Log ERROR _ => False
  | _ => True
  end.

(** [m] only appends to the journal, and nothing at the ERROR level. *)
Definition calm {A} (m : M A) : Prop :=
  forall w, exists evs, fst (m w) = logged w evs /\ Forall not_error evs.

(** [m] only appends to the journal, and always ends in an exception. *)
Definition fails {A} (m : M A) : Prop :=
  forall w, (exists evs, fst (m w) = logged w evs)
            /\ (exists e, snd (m w) = Raise e).

(** [m] only appends to the journal, and nothing at the ERROR level when it
    returns a value. *)
Definition tidy {A} (m : M A) : Prop :=
  forall w, exists evs,
    fst (m w) = logged w evs
    /\ (forall a, snd (m w) = Ok a -> Forall not_error evs).

(** The number of occurrences of a character. *)
Definition count_char (c : char) (s : pystr) : nat :=
  List.length (filter (fun x => (x =? c)%N) s).

Definition no_space (s : pystr) : Prop :=
  Forall (fun c => isspace c = false) s.

(** The pages that have some text beside white space. *)
Definition nonblank (texts : list pystr) : list pystr :=
  filter (fun t => match strip t with [] => false | _ :: _ => true end) texts.

(** The error of the first page whose text cannot be extracted. *)
Fixpoint first_error (pages : list (result pystr)) : option exn :=
  match pages with
  | [] => None
  | Ok _ :: rest => first_error rest
  | Raise e :: _ => Some e
  end.

(** The sixteen keys the parser reads. *)
Definition known_keys : list pystr :=
  [py "summary"; py "duration"; py "duration_months"; py "coverage_items";
   py "exclusions"; py "limitations"; py "claim_procedure";
   py "claim_contacts"; py "required_docs"; py "critical_dates";
   py "transferable"; py "extended_options"; py "critical_highlights";
   py "warning_highlights"; py "info_highlights"; py "confidence_score"].

(** The result of a reply that says nothing. *)
Definition default_result : ClaudeAnalysisResult :=
  mkClaudeAnalysisResult [] None None [] [] [] None [] [] [] None None
    [] [] [] 0.5%float.

Definition opt_val {A} (f : A -> pyval) (o : option A) : pyval :=
  match o with
  | Some a => f a
  | None => PNone
  end.

(** The JSON object that states a result field by field, as the prompt asks
    the model to. *)
Definition reply_object (r : ClaudeAnalysisResult) : pydict :=
  [(py "summary", PStr (summary r));
   (py "duration", opt_val PStr (duration r));
   (py "duration_months", opt_val PInt (duration_months r));
   (py "coverage_items", PList (List.map PStr (coverage_items r)));
   (py "exclusions", PList (List.map PStr (exclusions r)));
   (py "limitations", PList (List.map PStr (limitations r)));
   (py "claim_procedure", opt_val PStr (claim_procedure r));
   (py "claim_contacts", PDict (claim_contacts r));
   (py "required_docs", PList (List.map PStr (required_docs r)));
   (py "critical_dates", PList (List.map PDict (critical_dates r)));
   (py "transferable", opt_val PBool (transferable r));
   (py "extended_options", opt_val PStr (extended_options r));
   (py "critical_highlights", PList (List.map PDict (critical_highlights r)));
   (py "warning_highlights", PList (List.map PDict (warning_highlights r)));
   (py "info_highlights", PList (List.map PDict (info_highlights r)));
   (py "confidence_score", PFloat (confidence_score r))].

Definition with_confidence (r : ClaudeAnalysisResult) (c : float)
  : ClaudeAnalysisResult :=
  mkClaudeAnalysisResult (summary r) (duration r) (duration_months r)
    (coverage_items r) (exclusions r) (limitations r) (claim_procedure r)
    (claim_contacts r) (required_docs r) (critical_dates r) (transferable r)
    (extended_options r) (critical_highlights r) (warning_highlights r)
    (info_highlights r) c.

Module MoreSamples.

(** A result as the test script prints it, and the reply that states it. *)
Definition two_year_warranty : ClaudeAnalysisResult :=
  mkClaudeAnalysisResult
    (py "Two years on parts and labour.")
    (Some (py "24 months")) (Some 24)
    [py "Manufacturing defects"; py "Replacement parts and labor"]
    [py "Water damage"] []
    (Some (py "Contact customer service."))
    [(py "phone", PStr (py "1-800-555-0123")); (py "email", PNone)]
    [py "Proof of purchase"]
    [[(py "date", PStr (py "within 30 days"));
      (py "description", PStr (py "registration"));
      (py "type", PStr (py "registration_deadline"))]]
    (Some false) None [] [] [] 0.75%float.

Definition two_year_reply : pystr :=
  pyq "Here is the analysis: {'summary': 'Two years on parts and labour.', 'duration': '24 months', 'duration_months': 24, 'coverage_items': ['Manufacturing defects', 'Replacement parts and labor'], 'exclusions': ['Water damage'], 'limitations': [], 'claim_procedure': 'Contact customer service.', 'claim_contacts': {'phone': '1-800-555-0123', 'email': null}, 'required_docs': ['Proof of purchase'], 'critical_dates': [{'date': 'within 30 days', 'description': 'registration', 'type': 'registration_deadline'}], 'transferable': false, 'extended_options': null, 'critical_highlights': [], 'warning_highlights': [], 'info_highlights': [], 'confidence_score': 0.75} I hope it helps.".

(** A reader whose second page cannot be extracted. *)
Definition broken_page : capabilities bytes :=
  {| pdf_pages := fun _ => Ok [Ok sample_page_text; Raise (LibraryError "PdfReadError");
                               Ok sample_page_text];
     pdf2image := pdf2image fifteen_pages;
     image_open := image_open fifteen_pages;
     image_mode := image_mode fifteen_pages;
     image_size := image_size fifteen_pages;
     image_new_rgb := image_new_rgb fifteen_pages;
     image_convert_rgba := image_convert_rgba fifteen_pages;
     image_paste := image_paste fifteen_pages;
     image_resize := image_resize fifteen_pages;
     image_save_png := image_save_png fifteen_pages;
     vision_create := vision_create fifteen_pages |}.

End MoreSamples.
Import MoreSamples.

(* ================================================================= *)
(** * Properties *)

(** ** Date arithmetic *)

Lemma add_whole_days (d : datetime) (n : Z) :
  valid d ->
  Datetime.add d (mkTimedelta n 0 0) =
    if (0 <? ordinal d + n) && (ordinal d + n <=? MAXORDINAL)
    then Ok (plus_days d n) else Raise OverflowError.
Proof.
  intros (Ho & Hh & Hm & Hs & Hu).
  unfold Datetime.add, plus_days; cbn [days seconds microseconds].
  rewrite !Z.add_0_r.
  assert (Eu : microsecond d / 1000000 = 0) by (apply Z.div_small; lia).
  assert (Eu' : microsecond d mod 1000000 = microsecond d)
    by (apply Z.mod_small; lia).
  rewrite Eu, Eu', !Z.add_0_r.
  set (s := hour d * 3600 + minute d * 60 + second d).
  assert (Es : s / 86400 = 0) by (apply Z.div_small; unfold s; lia).
  assert (Es' : s mod 86400 = s) by (apply Z.mod_small; unfold s; lia).
  rewrite Es, Es', Z.add_0_r.
  assert (E1 : s / 3600 = hour d)
    by (symmetry; apply Z.div_unique with (r := minute d * 60 + second d);
        unfold s; lia).
  assert (E2 : s mod 3600 = minute d * 60 + second d)
    by (symmetry; apply Z.mod_unique with (q := hour d); unfold s; lia).
  assert (E3 : (minute d * 60 + second d) / 60 = minute d)
    by (symmetry; apply Z.div_unique with (r := second d); lia).
  assert (E4 : (minute d * 60 + second d) mod 60 = second d)
    by (symmetry; apply Z.mod_unique with (q := minute d); lia).
  rewrite E1, E2, E3, E4.
  destruct d; reflexivity.
Qed.

Lemma extract_with_purchase_date (m : Z) (D : datetime) (w : world) :
  valid D ->
  extract_warranty_dates (Some m) (Some D) w =
    (w, if Z.abs (m * 30) >? MAX_DELTA_DAYS then Raise OverflowError
        else if (0 <? ordinal D + m * 30) && (ordinal D + m * 30 <=? MAXORDINAL)
        then Ok (Some D, Some (plus_days D (m * 30)))
        else Raise OverflowError).
Proof.
  intros HD.
  unfold extract_warranty_dates, bind, ret, lift, timedelta_of_days.
  destruct (Z.abs (m * 30) >? MAX_DELTA_DAYS); [reflexivity|].
  rewrite (add_whole_days _ HD).
  destruct ((0 <? ordinal D + m * 30) && (ordinal D + m * 30 <=? MAXORDINAL));
    reflexivity.
Qed.

(** C4, as stated, fails: the expiry date has to be a [datetime].  A
    duration of 999999 months from a purchase in 2021 ends some 82000 years
    later, and one month from 9999-12-31 ends in the year 10000; both calls
    raise [OverflowError] instead of returning a pair of dates. *)
Lemma C4_overflow_counterexample :
  valid purchase
  /\ extract_warranty_dates (Some 999999) (Some purchase) quiet
     = (quiet, Raise OverflowError)
  /\ valid last_day
  /\ extract_warranty_dates (Some 1) (Some last_day) quiet
     = (quiet, Raise OverflowError).
Proof.
  split; [unfold valid, MAXORDINAL; cbn; lia|].
  split; [vm_compute; reflexivity|].
  split; [unfold valid, MAXORDINAL; cbn; lia|].
  vm_compute; reflexivity.
Qed.

(** C4, amended: with a purchase date [D], a null duration gives
    [(None, None)]; a duration of [m] months whose expiry day [D + 30 m] is
    still a [datetime] (year 1 to 9999) gives [(D, D + 30 m days)], so 24
    months give [D + 720 days]; any other duration raises [OverflowError].
    In every case the world is left as it was: no clock reading, no log, no
    call. *)
Theorem C4_extract_warranty_dates (D : datetime) (w : world) :
  valid D ->
  extract_warranty_dates None (Some D) w = (w, Ok (None, None))
  /\ (forall m : Z,
        1 <= ordinal D + m * 30 <= MAXORDINAL ->
        extract_warranty_dates (Some m) (Some D) w
        = (w, Ok (Some D, Some (plus_days D (m * 30)))))
  /\ (1 <= ordinal D + 720 <= MAXORDINAL ->
        extract_warranty_dates (Some 24) (Some D) w
        = (w, Ok (Some D, Some (plus_days D 720))))
  /\ (forall m : Z,
        ~ 1 <= ordinal D + m * 30 <= MAXORDINAL ->
        extract_warranty_dates (Some m) (Some D) w = (w, Raise OverflowError)).
Proof.
  intros HD.
  assert (Hin : forall m, 1 <= ordinal D + m * 30 <= MAXORDINAL ->
                extract_warranty_dates (Some m) (Some D) w
                = (w, Ok (Some D, Some (plus_days D (m * 30))))).
  { intros m Hm. rewrite (extract_with_purchase_date _ _ HD).
    destruct HD as (Ho & _). unfold MAXORDINAL, MAX_DELTA_DAYS in *.
    replace (Z.abs (m * 30) >? 999999999) with false
      by (symmetry; rewrite Z.gtb_ltb; apply Z.ltb_ge; lia).
    replace ((0 <? ordinal D + m * 30) && (ordinal D + m * 30 <=? 3652059))
      with true; [reflexivity|].
    symmetry; apply andb_true_iff; split;
      [apply Z.ltb_lt | apply Z.leb_le]; lia. }
  split; [reflexivity|]. split; [exact Hin|]. split.
  - intros H. exact (Hin 24 H).
  - intros m Hm. rewrite (extract_with_purchase_date _ _ HD).
    destruct (Z.abs (m * 30) >? MAX_DELTA_DAYS); [reflexivity|].
    destruct (0 <? ordinal D + m * 30) eqn:E1;
      destruct (ordinal D + m * 30 <=? MAXORDINAL) eqn:E2; try reflexivity.
    apply Z.ltb_lt in E1. apply Z.leb_le in E2. exfalso; apply Hm; lia.
Qed.

Lemma C4_extract_warranty_dates_witness :
  valid purchase
  /\ extract_warranty_dates (Some 24) (Some purchase) quiet
     = (quiet, Ok (Some purchase, Some (mkDatetime 738720 9 30 0 0))).
Proof.
  assert (HD : valid purchase) by (unfold valid, MAXORDINAL; cbn; lia).
  split; [exact HD|].
  destruct (C4_extract_warranty_dates quiet HD) as (_ & _ & H24 & _).
  apply H24. unfold MAXORDINAL; cbn; lia.
Defined.

(** C10: a duration of zero months with a purchase date [D] gives [(D, D)],
    leaving the world untouched; [(None, None)] is returned for a null
    duration and for no other. *)
Theorem C10_zero_months (D : datetime) (w : world) :
  valid D ->
  extract_warranty_dates (Some 0) (Some D) w = (w, Ok (Some D, Some D))
  /\ (forall p, extract_warranty_dates None p w = (w, Ok (None, None)))
  /\ (forall m p w', snd (extract_warranty_dates (Some m) p w') <> Ok (None, None)).
Proof.
  intros HD. split; [|split].
  - rewrite (extract_with_purchase_date _ _ HD). cbn [Z.mul].
    destruct HD as (Ho & _). unfold MAXORDINAL in *.
    replace (Z.abs 0 >? MAX_DELTA_DAYS) with false by reflexivity.
    rewrite Z.add_0_r.
    replace ((0 <? ordinal D) && (ordinal D <=? 3652059)) with true.
    + unfold plus_days. rewrite Z.add_0_r. destruct D; reflexivity.
    + symmetry; apply andb_true_iff; split;
        [apply Z.ltb_lt | apply Z.leb_le]; lia.
  - intros p. reflexivity.
  - intros m p w'. unfold extract_warranty_dates, bind, ret, lift.
    destruct p as [d|]; cbn;
      destruct (timedelta_of_days (m * 30)) as [t|e]; cbn; try discriminate;
      match goal with |- context [Datetime.add ?a ?b] =>
        destruct (Datetime.add a b) end; cbn; discriminate.
Qed.

Lemma C10_zero_months_witness :
  valid purchase
  /\ extract_warranty_dates (Some 0) (Some purchase) quiet
     = (quiet, Ok (Some purchase, Some purchase)).
Proof.
  assert (HD : valid purchase) by (unfold valid, MAXORDINAL; cbn; lia).
  split; [exact HD|].
  exact (proj1 (C10_zero_months quiet HD)).
Defined.

(** ** The decoder never spends its recursion budget *)

Lemma skip_ws_length (s : pystr) :
  (List.length (skip_ws s) <= List.length s)%nat.
Proof.
  induction s as [|c s IH]; cbn; [lia|].
  destruct (is_json_ws c); cbn; lia.
Qed.

Lemma scanstring_from_length (s : pystr) :
  forall mode acc str rest,
    scanstring_from mode acc s = Some (str, rest) ->
    (List.length rest < List.length s)%nat.
Proof.
  induction s as [|c r IH]; intros mode acc str rest; cbn [scanstring_from];
    [discriminate|].
  assert (Hrec : forall m a, scanstring_from m a r = Some (str, rest) ->
                             (List.length rest < S (List.length r))%nat)
    by (intros m a H; apply IH in H; lia).
  cbn [List.length].
  destruct mode as [h|h|h n v].
  - destruct (c =? dquote)%N.
    + intros H; inversion H; subst; lia.
    + destruct (c =? ch "\")%N; [apply Hrec|].
      destruct (c <? 32)%N; [discriminate|apply Hrec].
  - repeat match goal with
           | |- (if ?b then _ else _) = _ -> _ => destruct b; [apply Hrec|]
           end.
    discriminate.
  - destruct (hex_value c) as [x|]; [|discriminate].
    destruct n as [|[|n']]; try apply Hrec;
      destruct h; try apply Hrec;
      destruct acc as [|hi acc']; try apply Hrec;
      destruct (is_low_surrogate (16 * v + x)); apply Hrec.
Qed.

Lemma strip_prefix_length (p : pystr) :
  forall s rest, strip_prefix p s = Some rest ->
                 List.length s = (List.length p + List.length rest)%nat.
Proof.
  induction p as [|a p IH]; intros s rest; cbn.
  - intros H; inversion H; reflexivity.
  - destruct s as [|b s]; [discriminate|].
    destruct (N.eqb a b); [|discriminate].
    intros H. apply IH in H. cbn. lia.
Qed.

Lemma match_constant_length (s : pystr) (v : pyval) (rest : pystr) :
  match_constant s = Some (v, rest) ->
  (List.length rest < List.length s)%nat.
Proof.
  unfold match_constant.
  repeat match goal with
         | |- match strip_prefix ?p s with _ => _ end = _ -> _ =>
             let E := fresh "E" in
             destruct (strip_prefix p s) eqn:E;
             [apply strip_prefix_length in E; cbn in E;
              intros H; inversion H; subst; lia|]
         end.
  discriminate.
Qed.

Lemma span_digits_length (s : pystr) :
  List.length s
  = (List.length (fst (span_digits s)) + List.length (snd (span_digits s)))%nat.
Proof.
  induction s as [|c s IH]; cbn; [reflexivity|].
  destruct (is_digit c); [|reflexivity].
  destruct (span_digits s) as [ds r]; cbn in *. lia.
Qed.

Lemma match_exponent_length (s : pystr) (e : Z) (rest : pystr) :
  match_exponent s = Some (e, rest) ->
  (List.length rest < List.length s)%nat.
Proof.
  unfold match_exponent. destruct s as [|c r]; [discriminate|].
  destruct ((c =? ch "e") || (c =? ch "E"))%N; [|discriminate].
  assert (Hd : forall (eneg : bool) r1,
             (List.length r1 <= List.length r)%nat ->
             match span_digits r1 with
             | ([], _) => None
             | (ds, rest0) =>
                 Some (if eneg then - Z_of_digits ds else Z_of_digits ds, rest0)
             end = Some (e, rest) ->
             (List.length rest < List.length (c :: r))%nat).
  { intros eneg r1 Hle H. pose proof (span_digits_length r1) as Hl.
    destruct (span_digits r1) as [[|d ds] r0]; cbn [fst snd] in Hl.
    - discriminate.
    - inversion H; subst; cbn in *; lia. }
  destruct r as [|c1 r'].
  - apply (Hd false []). cbn; lia.
  - destruct (c1 =? ch "-")%N.
    + apply (Hd true r'). cbn; lia.
    + destruct (c1 =? ch "+")%N.
      * apply (Hd false r'). cbn; lia.
      * apply (Hd false (c1 :: r')). cbn; lia.
Qed.

Lemma match_number_length (s : pystr) (v : pyval) (rest : pystr) :
  match_number s = Some (v, rest) ->
  (List.length rest < List.length s)%nat.
Proof.
  unfold match_number.
  assert (H1 : (List.length (snd (match_sign s)) <= List.length s)%nat).
  { unfold match_sign. destruct s as [|c r]; [cbn; lia|].
    destruct (c =? ch "-")%N; cbn; lia. }
  destruct (match_sign s) as [neg s1]; cbn [snd] in H1.
  assert (H2 : forall ip s2, match_integer s1 = Some (ip, s2) ->
                             (List.length s2 < List.length s1)%nat).
  { unfold match_integer. destruct s1 as [|c r]; [discriminate|].
    destruct (is_digit c) eqn:Ed; [|discriminate].
    destruct (c =? ch "0")%N.
    - intros ip s2 H; inversion H; subst; cbn; lia.
    - intros ip s2 H. inversion H as [E].
      pose proof (span_digits_length r) as Hl.
      cbn [span_digits] in E. rewrite Ed in E.
      destruct (span_digits r) as [ds r0]; cbn [fst snd] in Hl.
      inversion E; subst. cbn. lia. }
  destruct (match_integer s1) as [[ip s2]|]; [|discriminate].
  specialize (H2 _ _ eq_refl).
  assert (H3 : (List.length (snd (match_fraction s2)) <= List.length s2)%nat).
  { unfold match_fraction. destruct s2 as [|p r]; [cbn; lia|].
    destruct (p =? ch ".")%N; [|cbn; lia].
    pose proof (span_digits_length r) as Hl.
    destruct (span_digits r) as [[|d ds] r0]; cbn [fst snd] in *; cbn; lia. }
  destruct (match_fraction s2) as [fp s3]; cbn [snd] in H3.
  destruct (match_exponent s3) as [[e s4]|] eqn:Ee.
  - apply match_exponent_length in Ee.
    destruct fp; intros H; inversion H; subst; lia.
  - destruct fp; intros H; inversion H; subst; lia.
Qed.

(** With fuel above twice the length of the text (and one more for the
    element loop, which starts by scanning a value), no scan ends for lack of
    fuel, and every scan that succeeds has consumed something. *)
Lemma scan_fuel (fuel : nat) :
  (forall s, (2 * List.length s < fuel)%nat ->
             scan_once fuel s <> Exhausted
             /\ forall v rest, scan_once fuel s = Parsed v rest ->
                               (List.length rest < List.length s)%nat)
  /\ (forall acc s, (2 * List.length s < fuel)%nat ->
             parse_members fuel acc s <> Exhausted
             /\ forall kvs rest, parse_members fuel acc s = Parsed kvs rest ->
                                 (List.length rest < List.length s)%nat)
  /\ (forall acc s, (2 * List.length s + 1 < fuel)%nat ->
             parse_elements fuel acc s <> Exhausted
             /\ forall xs rest, parse_elements fuel acc s = Parsed xs rest ->
                                (List.length rest < List.length s)%nat).
Proof.
  induction fuel as [|fuel (IHv & IHm & IHe)].
  - repeat split; intros; lia.
  - split; [|split].
    + intros s Hf. cbn [scan_once].
      destruct s as [|c r]; [split; [discriminate|discriminate]|].
      cbn [List.length] in Hf.
      destruct (c =? dquote)%N.
      { destruct (scanstring r) as [[str rest]|] eqn:Es;
          [|split; discriminate].
        apply scanstring_from_length in Es.
        split; [discriminate|]. intros v rest' H; inversion H; subst.
        cbn; lia. }
      destruct (c =? ch "{")%N.
      { pose proof (skip_ws_length r) as Hw.
        destruct (skip_ws r) as [|c1 r1]; [split; discriminate|].
        cbn [List.length] in Hw.
        destruct (c1 =? ch "}")%N.
        - split; [discriminate|]. intros v rest H; inversion H; subst.
          cbn; lia.
        - destruct (IHm [] (c1 :: r1)) as [Hne Hlen]; [cbn; lia|].
          destruct (parse_members fuel [] (c1 :: r1)) as [kvs rest| |];
            [|split; discriminate|contradiction].
          split; [discriminate|]. intros v rest' H; inversion H; subst.
          specialize (Hlen _ _ eq_refl). cbn in *; lia. }
      destruct (c =? ch "[")%N.
      { pose proof (skip_ws_length r) as Hw.
        destruct (skip_ws r) as [|c1 r1]; [split; discriminate|].
        cbn [List.length] in Hw.
        destruct (c1 =? ch "]")%N.
        - split; [discriminate|]. intros v rest H; inversion H; subst.
          cbn; lia.
        - destruct (IHe [] (c1 :: r1)) as [Hne Hlen]; [cbn; lia|].
          destruct (parse_elements fuel [] (c1 :: r1)) as [xs rest| |];
            [|split; discriminate|contradiction].
          split; [discriminate|]. intros v rest' H; inversion H; subst.
          specialize (Hlen _ _ eq_refl). cbn in *; lia. }
      destruct (match_constant (c :: r)) as [[v rest]|] eqn:Ec.
      { apply match_constant_length in Ec.
        split; [discriminate|]. intros v' rest' H; inversion H; subst. exact Ec. }
      destruct (match_number (c :: r)) as [[v rest]|] eqn:En;
        cbn [of_option]; [|split; discriminate].
      apply match_number_length in En.
      split; [discriminate|]. intros v' rest' H; inversion H; subst. exact En.
    + intros acc s Hf. cbn [parse_members].
      destruct s as [|c r]; [split; discriminate|].
      cbn [List.length] in Hf.
      destruct (c =? dquote)%N; [|split; discriminate].
      destruct (scanstring r) as [[key r1]|] eqn:Es; [|split; discriminate].
      apply scanstring_from_length in Es.
      pose proof (skip_ws_length r1) as Hw1.
      destruct (skip_ws r1) as [|c2 r2]; [split; discriminate|].
      cbn [List.length] in Hw1.
      destruct (c2 =? ch ":")%N; [|split; discriminate].
      pose proof (skip_ws_length r2) as Hw2.
      destruct (IHv (skip_ws r2)) as [Hne Hlen]; [lia|].
      destruct (scan_once fuel (skip_ws r2)) as [v r3| |];
        [|split; discriminate|contradiction].
      specialize (Hlen _ _ eq_refl).
      pose proof (skip_ws_length r3) as Hw3.
      destruct (skip_ws r3) as [|c4 r4]; [split; discriminate|].
      cbn [List.length] in Hw3.
      destruct (c4 =? ch "}")%N.
      { split; [discriminate|]. intros kvs rest H; inversion H; subst.
        cbn; lia. }
      destruct (c4 =? ch ",")%N; [|split; discriminate].
      pose proof (skip_ws_length r4) as Hw4.
      destruct (IHm (dict_set key v acc) (skip_ws r4)) as [Hne' Hlen'];
        [lia|].
      split; [exact Hne'|]. intros kvs rest H.
      specialize (Hlen' _ _ H). cbn; lia.
    + intros acc s Hf. cbn [parse_elements].
      destruct (IHv s) as [Hne Hlen]; [lia|].
      destruct (scan_once fuel s) as [v r1| |];
        [|split; discriminate|contradiction].
      specialize (Hlen _ _ eq_refl).
      pose proof (skip_ws_length r1) as Hw1.
      destruct (skip_ws r1) as [|c2 r2]; [split; discriminate|].
      cbn [List.length] in Hw1.
      destruct (c2 =? ch "]")%N.
      { split; [discriminate|]. intros xs rest H; inversion H; subst. lia. }
      destruct (c2 =? ch ",")%N; [|split; discriminate].
      pose proof (skip_ws_length r2) as Hw2.
      destruct (IHe (v :: acc) (skip_ws r2)) as [Hne' Hlen']; [lia|].
      split; [exact Hne'|]. intros xs rest H.
      specialize (Hlen' _ _ H). lia.
Qed.

(** [json_loads] returns a value or raises [JSONDecodeError]. *)
Lemma json_loads_outcomes (s : pystr) :
  (exists v, json_loads s = Ok v) \/ json_loads s = Raise JSONDecodeError.
Proof.
  unfold json_loads. destruct (has_bom s); [right; reflexivity|].
  pose proof (skip_ws_length s) as Hw.
  destruct (scan_fuel (2 * List.length s + 2)) as [Hv _].
  destruct (Hv (skip_ws s)) as [Hne _]; [lia|].
  destruct (scan_once (2 * List.length s + 2) (skip_ws s)) as [v rest| |].
  - destruct (skip_ws rest); [left; eexists; reflexivity|right; reflexivity].
  - right; reflexivity.
  - contradiction.
Qed.


(** The decoder on a few texts. *)
Example json_loads_object :
  json_loads (pyq "{'summary': 'ok', 'confidence_score': 1.7, 'n': [1, -2e0, null], 't': true}")
  = Ok (PDict [(py "summary", PStr (py "ok"));
               (py "confidence_score", PFloat 1.7%float);
               (py "n", PList [PInt 1; PFloat (-2)%float; PNone]);
               (py "t", PBool true)]).
Proof. vm_compute. reflexivity. Qed.

Example json_loads_rejects :
  json_loads (py "Sorry, I cannot process this.") = Raise JSONDecodeError
  /\ json_loads (pyq "{'a': 1,}") = Raise JSONDecodeError
  /\ json_loads (py "01") = Raise JSONDecodeError
  /\ json_loads (py "{} trailing") = Raise JSONDecodeError.
Proof. repeat split; vm_compute; reflexivity. Qed.

Example json_loads_rounding :
  json_loads (py "0.1") = Ok (PFloat 0.1%float)
  /\ json_loads (py "1.00000000000000000001") = Ok (PFloat 1%float)
  /\ json_loads (py "1e400") = Ok (PFloat infinity)
  /\ json_loads (py "NaN") = Ok (PFloat nan).
Proof. repeat split; vm_compute; reflexivity. Qed.

Example brace_span :
  json_payload (pyq "Sure! {'a': {'b': 1}} Hope this helps {:-}") 
  = pyq "{'a': {'b': 1}} Hope this helps {:-}"
  /\ json_payload (py "} no opening brace after this") 
     = py "} no opening brace after this".
Proof. split; vm_compute; reflexivity. Qed.

(** ** The reply parser *)

Lemma logged_app (w : world) (a b : list event) :
  logged (logged w a) b = logged w (a ++ b).
Proof. unfold logged; cbn. now rewrite <- app_assoc. Qed.

Lemma logged_nil (w : world) : logged w [] = w.
Proof. destruct w; unfold logged; cbn. now rewrite app_nil_r. Qed.

(** What [_parse_analysis_response] does, by outcome of the decoder. *)
Lemma parse_response_cases (reply : pystr) (w : world) :
  _parse_analysis_response reply w =
    match json_loads (json_payload reply) with
    | Raise JSONDecodeError => (logged w decode_error_log, Ok minimal_response)
    | Raise e => (w, Raise e)
    | Ok data =>
        match get_attr data with
        | Raise e => (w, Raise AttributeError)
        | Ok d =>
            match between_0_and_1 (k_confidence_score (with_defaults d)) with
            | Raise e => (w, Raise TypeError)
            | Ok true => (w, Ok (with_defaults d))
            | Ok false =>
                (logged w bad_score_log,
                 Ok (set_confidence_score (with_defaults d) (PFloat 0.5%float)))
            end
        end
    end.
Proof.
  unfold _parse_analysis_response, try_except, bind, lift, log, emit, ret, raise.
  destruct (json_loads (json_payload reply)) as [data|e].
  - destruct data; cbn [get_attr]; try reflexivity.
    destruct (k_confidence_score (with_defaults kvs)) as [| | | f | | |];
      cbn [between_0_and_1 negb]; try reflexivity.
    + destruct ((0 <=? z) && (z <=? 1)); reflexivity.
    + destruct (unit_interval f); reflexivity.
  - destruct e; try reflexivity.
    unfold decode_error_log. rewrite logged_app. reflexivity.
Qed.

(** The result component and the log records of [_parse_analysis_response]
    are functions of the reply alone. *)
Lemma parse_response_pure (reply : pystr) :
  exists (v : result analysis_data) (evs : list event),
    Forall is_log evs
    /\ forall w, _parse_analysis_response reply w = (logged w evs, v).
Proof.
  pose proof (parse_response_cases reply) as H.
  destruct (json_loads (json_payload reply)) as [data|e].
  - destruct (get_attr data) as [d|e].
    + destruct (between_0_and_1 (k_confidence_score (with_defaults d)))
        as [[|]|e].
      * exists (Ok (with_defaults d)), []. split; [constructor|].
        intros w. now rewrite H, logged_nil.
      * eexists _, bad_score_log. split; [repeat constructor|]. exact H.
      * exists (Raise TypeError), []. split; [constructor|].
        intros w. now rewrite H, logged_nil.
    + exists (Raise AttributeError), []. split; [constructor|].
      intros w. now rewrite H, logged_nil.
  - destruct e;
      try (eexists (Raise _), []; split; [constructor|];
           intros w; rewrite H, logged_nil; reflexivity).
    eexists _, decode_error_log. split; [repeat constructor|]. exact H.
Qed.




Lemma parse_run (lax : lax_str) (reply : pystr) (w : world) :
  parse lax reply w =
    match _parse_analysis_response reply w with
    | (w', Ok a) => (w', new_ClaudeAnalysisResult lax a)
    | (w', Raise e) => (w', Raise e)
    end.
Proof.
  unfold parse, bind, lift.
  destruct (_parse_analysis_response reply w) as [w' [a|e]]; reflexivity.
Qed.

Lemma half_in_range : unit_interval 0.5%float = true.
Proof. vm_compute. reflexivity. Qed.




(** C9: the outcome of [parse] (a result or an exception) and the records it
    appends to the log are determined by the reply; nothing else of the world
    is read or changed.  Two invocations on the same reply therefore yield
    identical outcomes, whether run from unrelated worlds or one after the
    other. *)
Theorem C9_parse_deterministic (lax : lax_str) (reply : pystr) :
  (exists (v : result ClaudeAnalysisResult) (evs : list event),
      Forall is_log evs
      /\ forall w, parse lax reply w = (logged w evs, v))
  /\ (forall w1 w2, snd (parse lax reply w1) = snd (parse lax reply w2))
  /\ (forall w, snd (parse lax reply (fst (parse lax reply w)))
                = snd (parse lax reply w)).
Proof.
  assert (Hpure : exists (v : result ClaudeAnalysisResult) (evs : list event),
             Forall is_log evs
             /\ forall w, parse lax reply w = (logged w evs, v)).
  { destruct (parse_response_pure reply) as (v & evs & Hlog & Hrun).
    destruct v as [a|e].
    - exists (new_ClaudeAnalysisResult lax a), evs. split; [exact Hlog|].
      intros w. now rewrite parse_run, Hrun.
    - exists (Raise e), evs. split; [exact Hlog|].
      intros w. now rewrite parse_run, Hrun. }
  split; [exact Hpure|].
  destruct Hpure as (v & evs & _ & Hrun). split.
  - intros w1 w2. now rewrite !Hrun.
  - intros w. now rewrite !Hrun.
Qed.

(** Every way [_parse_analysis_response] can end: with a dictionary, or
    with one of the two exceptions its handler lets through. *)
Lemma parse_response_outcomes (reply : pystr) (w : world) :
  (exists w' a, _parse_analysis_response reply w = (w', Ok a))
  \/ _parse_analysis_response reply w = (w, Raise AttributeError)
  \/ _parse_analysis_response reply w = (w, Raise TypeError).
Proof.
  rewrite parse_response_cases.
  destruct (json_loads_outcomes (json_payload reply)) as [[v ->]| ->].
  - destruct (get_attr v) as [d|e]; [|right; left; reflexivity].
    destruct (between_0_and_1 (k_confidence_score (with_defaults d)))
      as [[|]|e].
    + left; eexists _, _; reflexivity.
    + left; eexists _, _; reflexivity.
    + right; right; reflexivity.
  - left; eexists _, _; reflexivity.
Qed.

(** C1 does not hold of the code.  Only [JSONDecodeError] is caught: a reply
    whose score is [null] raises [TypeError] at the range check, a reply that
    decodes to something other than an object raises [AttributeError] at the
    first [data.get], and an explicit [null] in a typed field passes the
    defaults and is refused when the result object is built.  The exception
    leaves [analyze_warranty], which logs it and raises it again. *)
Theorem C1_parse_raises :
  parse no_str_coercion reply_null_score quiet = (quiet, Raise TypeError)
  /\ parse no_str_coercion reply_array quiet = (quiet, Raise AttributeError)
  /\ parse no_str_coercion reply_null_summary quiet
     = (quiet, Raise (ValidationError "summary"))
  /\ snd (analyze_warranty no_str_coercion (py "Analyze: ") (py " Return JSON.")
            (canned_reply reply_null_score) sample_contract quiet)
     = Raise TypeError.
Proof. repeat split; vm_compute; reflexivity. Qed.

(** ** Text acquisition *)

Lemma str_eqb_eq (a b : pystr) : str_eqb a b = true <-> a = b.
Proof.
  revert b; induction a as [|x a IH]; intros [|y b]; cbn; split;
    try discriminate; try reflexivity.
  - intros H. apply andb_true_iff in H as [Hx Hr].
    apply N.eqb_eq in Hx. apply IH in Hr. now subst.
  - intros H. inversion H; subst. apply andb_true_iff; split.
    + apply N.eqb_refl.
    + now apply IH.
Qed.

Lemma str_eqb_neq (a b : pystr) : a <> b -> str_eqb a b = false.
Proof.
  intros H. destruct (str_eqb a b) eqn:E; [|reflexivity].
  apply str_eqb_eq in E. contradiction.
Qed.

(** *** White space *)

Lemma lstrip_no_lead (s : pystr) : no_lead (lstrip s).
Proof.
  induction s as [|c s IH]; cbn; [exact I|].
  destruct (isspace c) eqn:E; [exact IH|exact E].
Qed.

Lemma no_lead_lstrip (s : pystr) : no_lead s -> lstrip s = s.
Proof. destruct s as [|c s]; cbn; [reflexivity|]. now intros ->. Qed.

Lemma lstrip_suffix (s : pystr) : exists ws, s = ws ++ lstrip s.
Proof.
  induction s as [|c s [ws IH]]; [now exists []|]. cbn.
  destruct (isspace c).
  - exists (c :: ws). cbn. now rewrite <- IH.
  - now exists [].
Qed.

Lemma rstrip_no_lead (s : pystr) : no_lead s -> no_lead (rstrip s).
Proof.
  intros H. unfold rstrip.
  destruct (lstrip_suffix (rev s)) as [ws E].
  apply (f_equal (@rev char)) in E. rewrite rev_involutive, rev_app_distr in E.
  destruct (rev (lstrip (rev s))) as [|c p]; [exact I|].
  rewrite E in H. exact H.
Qed.

Lemma strip_idempotent (s : pystr) : strip (strip s) = strip s.
Proof.
  assert (H1 : no_lead (strip s))
    by (apply rstrip_no_lead, lstrip_no_lead).
  assert (H2 : no_lead (rev (strip s))).
  { unfold strip, rstrip. rewrite rev_involutive. apply lstrip_no_lead. }
  unfold strip at 1. rewrite (no_lead_lstrip _ H1).
  unfold rstrip. rewrite (no_lead_lstrip _ H2). apply rev_involutive.
Qed.

(** *** Reasoning on returned values *)

Lemma returns_bind {A B} (m : M A) (k : A -> M B) (P : B -> Prop) :
  (forall a, returns (k a) P) -> returns (bind m k) P.
Proof.
  intros H w w' b. unfold bind.
  destruct (m w) as [w1 [a|e]]; [apply H|discriminate].
Qed.

Lemma returns_try {A} (m : M A) (h : exn -> M A) (P : A -> Prop) :
  returns m P -> (forall e, returns (h e) P) -> returns (try_except m h) P.
Proof.
  intros Hm Hh w w' a. unfold try_except.
  destruct (m w) as [w1 [a'|e]] eqn:E.
  - intros H; inversion H; subst. exact (Hm _ _ _ E).
  - apply Hh.
Qed.

Lemma returns_raise {A} (e : exn) (P : A -> Prop) : returns (raise e) P.
Proof. intros w w' a; unfold raise; discriminate. Qed.

Lemma returns_log_raise {A} (l : level) (t : string) (e : exn) (P : A -> Prop) :
  returns (log l t ;;; raise e) P.
Proof. apply returns_bind; intros _. apply returns_raise. Qed.

Lemma returns_OCRResult (t : pystr) (c : float) (n : Z) :
  returns (lift (new_OCRResult t c n))
          (fun r => unit_interval (confidence r) = true).
Proof.
  intros w w' r. unfold lift, new_OCRResult.
  destruct (unit_interval c) eqn:E; [|discriminate].
  intros H; inversion H; subst. exact E.
Qed.

Lemma native_confidence_in_range (t : pystr) :
  unit_interval (native_confidence t) = true.
Proof.
  unfold native_confidence. destruct (len t >? 100); vm_compute; reflexivity.
Qed.

Lemma scanned_confidence_in_range (t : pystr) :
  unit_interval (scanned_confidence t) = true.
Proof.
  unfold scanned_confidence. destruct (len t >? 100); vm_compute; reflexivity.
Qed.

Lemma image_confidence_in_range (t : pystr) :
  unit_interval (image_confidence t) = true.
Proof.
  unfold image_confidence. destruct (len t >? 50); vm_compute; reflexivity.
Qed.

Section Acquisition.

Variable image : Type.
Variable cap : capabilities image.

Lemma vision_inputs_app (a b : list event) :
  vision_inputs (a ++ b) = vision_inputs a ++ vision_inputs b.
Proof.
  induction a as [|e a IH]; [reflexivity|].
  destruct e; cbn; now rewrite IH.
Qed.

Lemma vision_inputs_logged (w : world) (evs : list event) :
  vision_inputs (journal (logged w evs))
  = vision_inputs (journal w) ++ vision_inputs evs.
Proof. apply vision_inputs_app. Qed.

Lemma vision_run (b : bytes) (mime : pystr) (w : world) :
  _extract_text_with_claude_vision cap b mime w =
    match vision_create cap b mime with
    | Ok blocks =>
        (logged w [VisionCall b mime;
                   Log INFO "Extracted {} characters from image using Claude Vision"],
         Ok (strip (block_texts blocks)))
    | Raise e =>
        (logged w [VisionCall b mime; Log ERROR "Claude Vision API error: {e}"],
         Raise (RuntimeError (py "Failed to extract text with Claude Vision: {e}")))
    end.
Proof.
  unfold _extract_text_with_claude_vision, try_except, bind, lift, log, emit,
    ret, raise.
  destruct (vision_create cap b mime); now rewrite logged_app.
Qed.

Lemma encodings_cons_ok (img : image) (rest : list image) (b : bytes) :
  image_save_png cap img false = Ok b ->
  encodings cap (img :: rest) = b :: encodings cap rest.
Proof. intros E. unfold encodings; cbn. now rewrite E. Qed.

Lemma ocr_pages_cons (idx : nat) (img : image) (rest : list image) (w : world) :
  ocr_pages cap idx (img :: rest) w =
    match image_save_png cap img false with
    | Raise e =>
        (logged w [Log DEBUG "Processing page {idx} with Claude Vision"], Raise e)
    | Ok b =>
        match vision_create cap b (DocumentType_value PNG) with
        | Raise e =>
            (logged w [Log DEBUG "Processing page {idx} with Claude Vision";
                       VisionCall b (DocumentType_value PNG);
                       Log ERROR "Claude Vision API error: {e}"],
             Raise (RuntimeError (py "Failed to extract text with Claude Vision: {e}")))
        | Ok blocks =>
            match ocr_pages cap (S idx) rest
                    (logged w [Log DEBUG "Processing page {idx} with Claude Vision";
                               VisionCall b (DocumentType_value PNG);
                               Log INFO "Extracted {} characters from image using Claude Vision"])
            with
            | (w3, Ok parts) =>
                (w3, Ok (page_part idx (strip (block_texts blocks)) :: parts))
            | (w3, Raise e) => (w3, Raise e)
            end
        end
    end.
Proof.
  cbn [ocr_pages]. unfold bind, lift, log, emit, ret.
  destruct (image_save_png cap img false) as [b|e]; [|reflexivity].
  rewrite vision_run.
  destruct (vision_create cap b (DocumentType_value PNG)) as [blocks|e];
    rewrite logged_app; reflexivity.
Qed.

(** The OCR loop: the images it submits are encodings of a prefix of its
    input; when it completes, it has submitted every image and collected the
    marked page texts; and it completes when every page can be encoded and
    read. *)
Lemma ocr_pages_spec (imgs : list image) :
  forall (idx : nat) (w : world),
    (exists k, vision_inputs (journal (fst (ocr_pages cap idx imgs w)))
               = vision_inputs (journal w) ++ encodings cap (firstn k imgs))
    /\ (forall parts, snd (ocr_pages cap idx imgs w) = Ok parts ->
          parts = ocr_parts cap idx imgs
          /\ vision_inputs (journal (fst (ocr_pages cap idx imgs w)))
             = vision_inputs (journal w) ++ encodings cap imgs)
    /\ (Forall (page_ok cap) imgs ->
          snd (ocr_pages cap idx imgs w) = Ok (ocr_parts cap idx imgs)).
Proof.
  induction imgs as [|img rest IH]; intros idx w.
  - cbn. repeat split.
    + exists 0%nat. now rewrite app_nil_r.
    + now inversion H.
    + inversion H. now rewrite app_nil_r.
  - rewrite ocr_pages_cons.
    destruct (image_save_png cap img false) as [b|e] eqn:Esave.
    + destruct (vision_create cap b (DocumentType_value PNG)) as [blocks|e]
        eqn:Evis.
      * match goal with |- context [ocr_pages cap (S idx) rest ?w0] =>
          set (w2 := w0) end.
        assert (Hw2 : vision_inputs (journal w2)
                      = vision_inputs (journal w) ++ [b])
          by (unfold w2; rewrite vision_inputs_logged; reflexivity).
        destruct (IH (S idx) w2) as (Hpre & Hok & Htot).
        destruct (ocr_pages cap (S idx) rest w2) as [w3 [parts'|e]] eqn:Erun;
          cbn [fst snd] in *.
        -- destruct (Hok _ eq_refl) as [-> Hall].
           assert (Hsub : vision_inputs (journal w3)
                    = vision_inputs (journal w) ++ encodings cap (img :: rest))
             by (rewrite Hall, Hw2, (encodings_cons_ok _ _ Esave), <- app_assoc;
                 reflexivity).
           assert (Hparts : page_part idx (strip (block_texts blocks))
                              :: ocr_parts cap (S idx) rest
                            = ocr_parts cap idx (img :: rest))
             by (cbn [ocr_parts]; unfold ocr_text; now rewrite Esave, Evis).
           split; [|split].
           ++ exists (S (List.length rest)).
              rewrite firstn_all2 by (cbn; lia). exact Hsub.
           ++ intros parts H. inversion H; subst. split; [exact Hparts|exact Hsub].
           ++ intros _. now rewrite Hparts.
        -- split; [|split].
           ++ destruct Hpre as [k Hk]. exists (S k).
              rewrite Hk, Hw2. cbn [firstn].
              rewrite (encodings_cons_ok _ _ Esave), <- app_assoc. reflexivity.
           ++ discriminate.
           ++ intros Hall. inversion Hall; subst.
              match goal with H : Forall _ rest |- _ => specialize (Htot H) end.
              discriminate.
      * cbn [fst snd]. split; [|split]; try discriminate.
        -- exists 1%nat. rewrite vision_inputs_logged. cbn [firstn].
           rewrite (encodings_cons_ok _ _ Esave). reflexivity.
        -- intros Hall. inversion Hall as [|? ? (b' & blocks & E1 & E2) ?]; subst.
           rewrite Esave in E1. inversion E1; subst. congruence.
    + cbn [fst snd]. split; [|split]; try discriminate.
      * exists 0%nat. rewrite vision_inputs_logged. cbn. reflexivity.
      * intros Hall. inversion Hall as [|? ? (b' & blocks & E1 & E2) ?]; subst.
        congruence.
Qed.

(** C7: a media type that is none of the four values of [DocumentType] is
    refused with "Unsupported document type"; the only interactions are the
    two log records, so no reader, rasteriser, imaging or model call is made. *)
Theorem C7_unsupported_media_type
    (file_content : bytes) (file_name mime_type : pystr) (w : world) :
  (forall t, In t DocumentType_members -> mime_type <> DocumentType_value t) ->
  process_document cap file_content file_name mime_type w
  = (logged w [Log INFO "Processing document: {file_name} (type: {mime_type})";
               Log ERROR "Error processing document {file_name}: {e}"],
     Raise (ValueError (py "Unsupported document type: " ++ mime_type)))
  /\ calls (journal (fst (process_document cap file_content file_name mime_type w)))
     = calls (journal w).
Proof.
  intros H.
  assert (E : process_document cap file_content file_name mime_type w
   = (logged w [Log INFO "Processing document: {file_name} (type: {mime_type})";
               Log ERROR "Error processing document {file_name}: {e}"],
     Raise (ValueError (py "Unsupported document type: " ++ mime_type)))).
  { unfold process_document, is_image_type, existsb, unsupported.
    rewrite !str_eqb_neq by (apply H; cbn; tauto).
    unfold try_except, bind, log, emit, raise; cbn.
    now rewrite logged_app. }
  split; [exact E|].
  rewrite E. cbn [fst logged journal].
  induction (journal w) as [|e l IH]; [reflexivity|].
  destruct e; cbn; now rewrite ?IH.
Qed.


(** *** The scanned path *)


Lemma encodings_length (imgs : list image) :
  (List.length (encodings cap imgs) <= List.length imgs)%nat.
Proof.
  induction imgs as [|img rest IH]; [reflexivity|].
  unfold encodings in *; cbn.
  destruct (image_save_png cap img false); cbn; lia.
Qed.

(** [_process_scanned_pdf] once the rasteriser has produced [images]. *)
Lemma scanned_run (file_content : bytes) (page_count : Z) (w : world)
    (convert : bytes -> result (list image)) (images : list image) :
  pdf2image cap = Some convert ->
  convert file_content = Ok images ->
  _process_scanned_pdf cap file_content page_count w =
    match ocr_pages cap 1 (firstn page_cap images)
            (logged w [Log INFO "Processing scanned PDF with Claude Vision";
                       Rasterize file_content;
                       Log INFO "Converted PDF to {} images"]) with
    | (w', Ok text_parts) =>
        (w', Ok (mkOCRResult
                   (strip (join paragraph_break text_parts))
                   (scanned_confidence (join paragraph_break text_parts))
                   (Z.of_nat (List.length images))))
    | (w', Raise e) =>
        match e with
        | ImportError =>
            (logged w' [Log ERROR "pdf2image library not available, cannot process scanned PDFs"],
             Raise (ValueError (py "Cannot process scanned PDFs without pdf2image library")))
        | _ => (logged w' [Log ERROR "Error processing scanned PDF: {e}"], Raise e)
        end
    end.
Proof.
  intros Hcap Hconv.
  unfold _process_scanned_pdf, try_except, bind, lift, log, emit, ret, raise.
  rewrite Hcap, Hconv, !logged_app. cbn [app].
  destruct (ocr_pages cap 1 (firstn page_cap images) _) as [w' [parts|e]].
  - unfold new_OCRResult. now rewrite scanned_confidence_in_range.
  - destruct e; reflexivity.
Qed.

(** C3, amended: on the scanned path at most ten images go to vision OCR,
    and they are the first ten the rasteriser produced, in order; the page
    count of the result is the number of images the rasteriser produced (15
    for a document of 15 pages), not the number read. *)
Theorem C3_page_cap (file_content : bytes) (page_count0 : Z) (w : world)
    (convert : bytes -> result (list image)) (images : list image) :
  pdf2image cap = Some convert ->
  convert file_content = Ok images ->
  let run := _process_scanned_pdf cap file_content page_count0 w in
  (exists k, vision_inputs (journal (fst run))
             = vision_inputs (journal w)
               ++ encodings cap (firstn k (firstn 10 images)))
  /\ (List.length (vision_inputs (journal (fst run)))
      <= List.length (vision_inputs (journal w)) + 10)%nat
  /\ (forall r, snd run = Ok r ->
        vision_inputs (journal (fst run))
        = vision_inputs (journal w) ++ encodings cap (firstn 10 images)
        /\ page_count r = Z.of_nat (List.length images))
  /\ (Forall (page_ok cap) (firstn 10 images) -> exists r, snd run = Ok r).
Proof.
  intros Hcap Hconv run. subst run.
  rewrite (scanned_run _ _ _ Hcap Hconv).
  match goal with |- context [ocr_pages cap 1 ?l ?w0] =>
    set (w1 := w0);
    destruct (ocr_pages_spec l 1 w1) as (Hpre & Hok & Htot)
  end.
  assert (Hw1 : vision_inputs (journal w1) = vision_inputs (journal w))
    by (unfold w1; rewrite vision_inputs_logged; apply app_nil_r).
  change page_cap with 10%nat in *.
  destruct (ocr_pages cap 1 (firstn 10 images) w1) as [w' [parts|e]];
    cbn [fst snd] in *.
  - destruct (Hok _ eq_refl) as [_ Hall]. rewrite Hw1 in Hall.
    split; [|split; [|split]].
    + exists 10%nat. now rewrite firstn_firstn, Nat.min_id.
    + rewrite Hall, length_app.
      pose proof (encodings_length (firstn 10 images)).
      pose proof (firstn_le_length 10 images). lia.
    + intros r H. inversion H; subst. split; [exact Hall|reflexivity].
    + intros _. eexists; reflexivity.
  - destruct Hpre as [k Hk]. rewrite Hw1 in Hk.
    assert (Hlen : (List.length (encodings cap (firstn k (firstn 10 images)))
                    <= 10)%nat).
    { pose proof (encodings_length (firstn k (firstn 10 images))).
      pose proof (firstn_le_length k (firstn 10 images)).
      pose proof (firstn_le_length 10 images).
      rewrite firstn_firstn in *.
      rewrite length_firstn in *. lia. }
    destruct e; cbn [fst snd];
      (split; [exists k; rewrite vision_inputs_logged; cbn [vision_inputs];
               rewrite app_nil_r; exact Hk
              |split; [rewrite vision_inputs_logged; cbn [vision_inputs];
                       rewrite app_nil_r, Hk, length_app; lia
                      |split; [discriminate
                              |intros Hall; specialize (Htot Hall);
                               discriminate]]]).
Qed.


(** *** The native path *)

Lemma extract_pages_run (texts : list pystr) :
  forall page_num w,
    extract_pages page_num (List.map Ok texts) w
    = (logged w (repeat (Log DEBUG "Extracting text from page {page_num}/{page_count}")
                        (List.length texts)),
       Ok (native_parts page_num texts)).
Proof.
  induction texts as [|t rest IH]; intros page_num w.
  - cbn. now rewrite logged_nil.
  - cbn [List.map extract_pages]. unfold bind at 1, log, emit.
    unfold bind at 1, lift. unfold bind at 1. rewrite IH, logged_app.
    unfold ret. cbn [native_parts List.length repeat app].
    destruct (strip t); reflexivity.
Qed.

(** [_process_pdf] once every page has given its text. *)
Lemma process_pdf_run (file_content : bytes) (w : world) (texts : list pystr) :
  pdf_pages cap file_content = Ok (List.map Ok texts) ->
  _process_pdf cap file_content w =
    let w1 := logged w ([Log INFO "Processing PDF document"; PdfRead file_content]
                        ++ repeat (Log DEBUG "Extracting text from page {page_num}/{page_count}")
                                  (List.length texts)) in
    if len (strip (native_text texts)) <? 50 then
      try_except
        (_process_scanned_pdf cap file_content (Z.of_nat (List.length texts)))
        (fun e => log ERROR "Error processing PDF: {e}" ;;; raise e)
        (logged w1 [Log WARNING "PDF appears to be scanned/image-based, using Claude Vision for OCR"])
    else
      (w1, Ok (mkOCRResult (strip (native_text texts))
                           (native_confidence (native_text texts))
                           (Z.of_nat (List.length texts)))).
Proof.
  intros Hpages. cbv zeta.
  unfold _process_pdf. unfold bind at 1, log at 1, emit.
  unfold try_except at 1. unfold bind at 1, emit. unfold bind at 1, lift at 1.
  rewrite Hpages. unfold bind at 1. rewrite extract_pages_run, !logged_app.
  cbn [app]. rewrite length_map. fold (native_text texts).
  change scanned_threshold with 50.
  destruct (len (strip (native_text texts)) <? 50).
  - unfold bind at 1, log at 1, emit. rewrite logged_app.
    unfold try_except. reflexivity.
  - unfold lift, new_OCRResult. now rewrite native_confidence_in_range.
Qed.




(** *** Confidence *)

Ltac returns_step :=
  match goal with
  | |- returns (bind _ _) _ => apply returns_bind; intros
  | |- returns (try_except _ _) _ => apply returns_try; [|intros []]
  | |- returns (raise _) _ => apply returns_raise
  | |- returns (lift (new_OCRResult _ _ _)) _ => apply returns_OCRResult
  | |- returns (if ?c then _ else _) _ => destruct c
  end.

Lemma scanned_in_range (file_content : bytes) (n : Z) :
  returns (_process_scanned_pdf cap file_content n)
          (fun r => unit_interval (confidence r) = true).
Proof. unfold _process_scanned_pdf. repeat returns_step. Qed.

Lemma pdf_in_range (file_content : bytes) :
  returns (_process_pdf cap file_content)
          (fun r => unit_interval (confidence r) = true).
Proof.
  unfold _process_pdf. repeat returns_step. apply scanned_in_range.
Qed.

Lemma image_in_range (file_content : bytes) (mime_type : pystr) :
  returns (_process_image_with_claude cap file_content mime_type)
          (fun r => unit_interval (confidence r) = true).
Proof. unfold _process_image_with_claude. repeat returns_step. Qed.

Lemma returns_bind_post {A B} (m : M A) (k : A -> M B)
    (Q : A -> Prop) (P : B -> Prop) :
  returns m Q -> (forall a, Q a -> returns (k a) P) -> returns (bind m k) P.
Proof.
  intros Hm Hk w w' b. unfold bind.
  destruct (m w) as [w1 [a|e]] eqn:E; [|discriminate].
  apply Hk. exact (Hm _ _ _ E).
Qed.

Lemma vision_text_stripped (b : bytes) (mime : pystr) :
  returns (_extract_text_with_claude_vision cap b mime) (fun t => strip t = t).
Proof.
  intros w w' t. rewrite vision_run.
  destruct (vision_create cap b mime); [|discriminate].
  intros H; inversion H; subst. apply strip_idempotent.
Qed.

Lemma image_formula (file_content : bytes) (mime_type : pystr) :
  returns (_process_image_with_claude cap file_content mime_type)
          (fun r => confidence r
                    = if len (text r) >? 50 then 0.88%float else 0.65%float).
Proof.
  unfold _process_image_with_claude.
  apply returns_bind; intros _.
  apply returns_try; [|intros e; apply returns_log_raise].
  apply returns_bind; intros optimized.
  apply returns_bind_post with (Q := fun t => strip t = t);
    [apply vision_text_stripped|].
  intros t Ht w w' r. unfold lift, new_OCRResult.
  rewrite image_confidence_in_range. intros H; inversion H; subst.
  cbn [confidence text]. now rewrite Ht.
Qed.

(** C6: every result of text acquisition carries a confidence in [0,1], and
    the confidence is the one of its path: 0.95 or 0.7 on the native path as
    the concatenated page text is longer than 100 characters or not, 0.85 or
    0.6 on the scanned path by the same test on the concatenated OCR text,
    0.88 or 0.65 for a single image as the returned text is longer than 50
    characters or not. *)
Theorem C6_confidence_formula :
  (forall file_content file_name mime_type w w' r,
      process_document cap file_content file_name mime_type w = (w', Ok r) ->
      unit_interval (confidence r) = true)
  /\ (forall file_content w texts,
        pdf_pages cap file_content = Ok (List.map Ok texts) ->
        50 <= len (strip (native_text texts)) ->
        rmap confidence (snd (_process_pdf cap file_content w))
        = Ok (if len (native_text texts) >? 100 then 0.95%float else 0.7%float))
  /\ (forall file_content n w convert images w' r,
        pdf2image cap = Some convert ->
        convert file_content = Ok images ->
        _process_scanned_pdf cap file_content n w = (w', Ok r) ->
        text r = strip (ocr_document_text cap images)
        /\ confidence r = if len (ocr_document_text cap images) >? 100
                          then 0.85%float else 0.6%float)
  /\ (forall file_content mime_type w w' r,
        _process_image_with_claude cap file_content mime_type w = (w', Ok r) ->
        confidence r = if len (text r) >? 50 then 0.88%float else 0.65%float).
Proof.
  split; [|split; [|split]].
  - intros file_content file_name mime_type.
    assert (H : returns (process_document cap file_content file_name mime_type)
                        (fun r => unit_interval (confidence r) = true)).
    { unfold process_document. repeat returns_step.
      - apply pdf_in_range.
      - apply image_in_range. }
    intros w w' r. apply H.
  - intros file_content w texts Hpages Hlong.
    rewrite (process_pdf_run file_content w texts Hpages). cbv zeta.
    apply Z.ltb_ge in Hlong. rewrite Hlong. reflexivity.
  - intros file_content n w convert images w' r Hcap Hconv.
    rewrite (scanned_run _ _ _ Hcap Hconv).
    match goal with |- context [ocr_pages cap 1 ?l ?w0] =>
      destruct (ocr_pages_spec l 1 w0) as (_ & Hok & _);
      destruct (ocr_pages cap 1 l w0) as [w1 [parts|e]]
    end; cbn [snd] in Hok.
    + destruct (Hok _ eq_refl) as [-> _].
      intros H; inversion H; subst. cbn [text confidence].
      split; reflexivity.
    + destruct e; discriminate.
  - intros file_content mime_type w w' r. apply image_formula.
Qed.

(** *** Image normalisation *)

Lemma optimize_run (image_bytes : bytes) (w : world) :
  _optimize_image cap image_bytes w =
    match optimize_steps cap image_bytes w with
    | (w1, Ok png) => (w1, Ok png)
    | (w1, Raise e) =>
        (logged w1 [Log WARNING "Image optimization failed, using original: {e}"],
         Ok image_bytes)
    end.
Proof.
  unfold _optimize_image, try_except.
  destruct (optimize_steps cap image_bytes w) as [w1 [png|e]]; reflexivity.
Qed.



End Acquisition.

Lemma C7_unsupported_media_type_witness :
  process_document (scanner 1 []) scanned_contract (py "photo.gif")
    (py "image/gif") quiet
  = (logged quiet
       [Log INFO "Processing document: {file_name} (type: {mime_type})";
        Log ERROR "Error processing document {file_name}: {e}"],
     Raise (ValueError (py "Unsupported document type: image/gif"))).
Proof.
  refine (proj1 (C7_unsupported_media_type (scanner 1 []) scanned_contract
                   (py "photo.gif") (mime_type := py "image/gif") quiet _)).
  intros t Ht. cbn in Ht.
  destruct Ht as [<-|[<-|[<-|[<-|[]]]]]; vm_compute; discriminate.
Defined.

(** The page markers count toward the threshold: a single page with 40
    characters of text gives a concatenated text of 55 characters and is
    returned as native text. *)
Example marker_counts_toward_threshold :
  len (strip (native_text [py "Warranty: 12 months. See reverse side..."])) = 55
  /\ snd (_process_pdf (text_pdf [py "Warranty: 12 months. See reverse side..."])
            scanned_contract quiet)
     = Ok (mkOCRResult
             (page_part 1 (py "Warranty: 12 months. See reverse side..."))
             0.7%float 1).
Proof. split; vm_compute; reflexivity. Qed.

(** C3, as stated, fails: a scanned PDF of 15 pages is returned with a page
    count of 15, while ten images were submitted for OCR. *)
Lemma C3_page_count_counterexample :
  rmap page_count
    (snd (process_document fifteen_pages scanned_contract (py "scan.pdf")
            (py "application/pdf") quiet)) = Ok 15
  /\ List.length
       (vision_inputs
          (journal (fst (process_document fifteen_pages scanned_contract
                           (py "scan.pdf") (py "application/pdf") quiet))))
     = 10%nat.
Proof. split; vm_compute; reflexivity. Qed.

Lemma C3_page_cap_witness :
  (List.length
     (vision_inputs
        (journal (fst (_process_scanned_pdf fifteen_pages scanned_contract 15 quiet))))
   <= 0 + 10)%nat
  /\ (exists r,
        snd (_process_scanned_pdf fifteen_pages scanned_contract 15 quiet) = Ok r).
Proof.
  destruct (@C3_page_cap bytes fifteen_pages scanned_contract 15 quiet
              (fun _ => Ok fifteen_images) fifteen_images eq_refl eq_refl)
    as (_ & Hcap & _ & Htot).
  split; [exact Hcap|].
  apply Htot.
  repeat (constructor; [do 2 eexists; split; reflexivity|]). constructor.
Defined.


Lemma C6_confidence_formula_witness :
  rmap confidence
    (snd (_process_pdf (text_pdf [sample_page_text]) scanned_contract quiet))
  = Ok 0.7%float.
Proof.
  destruct (@C6_confidence_formula bytes (text_pdf [sample_page_text]))
    as (_ & Hnative & _ & _).
  assert (Hlen : 50 <= len (strip (native_text [sample_page_text])))
    by (vm_compute; discriminate).
  exact (Hnative scanned_contract quiet [sample_page_text] eq_refl Hlen).
Defined.


(* ================================================================= *)
(** * Further properties of the code *)

(** ** Dates *)

Lemma plus_days_valid (d : datetime) (n : Z) :
  valid d -> 1 <= ordinal d + n <= MAXORDINAL -> valid (plus_days d n).
Proof.
  intros (Ho & Ht) Hn. unfold valid, plus_days; cbn. split; [exact Hn|exact Ht].
Qed.

Lemma in_range_test (d : datetime) (n : Z) :
  valid d -> 1 <= ordinal d + n <= MAXORDINAL ->
  (Z.abs n >? MAX_DELTA_DAYS) = false
  /\ (0 <? ordinal d + n) && (ordinal d + n <=? MAXORDINAL) = true.
Proof.
  intros (Ho & _) Hn. unfold MAXORDINAL, MAX_DELTA_DAYS in *. split.
  - rewrite Z.gtb_ltb. apply Z.ltb_ge. lia.
  - apply andb_true_iff; split; [apply Z.ltb_lt | apply Z.leb_le]; lia.
Qed.

Lemma extract_without_purchase_date (m : Z) (w : world) :
  valid (clock w) ->
  extract_warranty_dates (Some m) None w =
    (logged w [ClockRead],
     if Z.abs (m * 30) >? MAX_DELTA_DAYS then Raise OverflowError
     else if (0 <? ordinal (clock w) + m * 30)
             && (ordinal (clock w) + m * 30 <=? MAXORDINAL)
     then Ok (Some (clock w), Some (plus_days (clock w) (m * 30)))
     else Raise OverflowError).
Proof.
  intros Hc.
  unfold extract_warranty_dates, bind, ret, lift, datetime_now,
    timedelta_of_days.
  destruct (Z.abs (m * 30) >? MAX_DELTA_DAYS); [reflexivity|].
  rewrite (add_whole_days _ Hc).
  destruct ((0 <? ordinal (clock w) + m * 30)
            && (ordinal (clock w) + m * 30 <=? MAXORDINAL)); reflexivity.
Qed.

(** X1: without a purchase date the warranty starts now: the clock is read
    exactly once, the start date is the reading and the expiry lies [30 m]
    days after it.  A null duration returns [(None, None)] without reading
    the clock. *)
Theorem X1_dates_from_now (m : Z) (w : world) :
  valid (clock w) ->
  1 <= ordinal (clock w) + m * 30 <= MAXORDINAL ->
  extract_warranty_dates (Some m) None w
  = (logged w [ClockRead],
     Ok (Some (clock w), Some (plus_days (clock w) (m * 30))))
  /\ extract_warranty_dates None None w = (w, Ok (None, None)).
Proof.
  intros Hc Hm. split; [|reflexivity].
  rewrite (extract_without_purchase_date _ _ Hc).
  destruct (in_range_test _ Hc Hm) as [-> ->]. reflexivity.
Qed.

Lemma X1_dates_from_now_witness :
  extract_warranty_dates (Some 24) None quiet
  = (logged quiet [ClockRead],
     Ok (Some (clock quiet), Some (mkDatetime 739720 0 0 0 0))).
Proof.
  refine (proj1 (@X1_dates_from_now 24 quiet _ _)).
  - unfold valid, MAXORDINAL; cbn; lia.
  - unfold MAXORDINAL; cbn; lia.
Defined.

(** X2: durations compose.  Counting [m2] months from the expiry of a
    warranty of [m1] months gives the expiry of a warranty of [m1 + m2]
    months, whenever both expiries are dates; the sign of a duration is not
    checked, so a negative one gives an expiry before the start. *)
Theorem X2_durations_compose (D : datetime) (m1 m2 : Z) (w : world) :
  valid D ->
  1 <= ordinal D + m1 * 30 <= MAXORDINAL ->
  1 <= ordinal D + (m1 + m2) * 30 <= MAXORDINAL ->
  exists E1 E,
    extract_warranty_dates (Some m1) (Some D) w = (w, Ok (Some D, Some E1))
    /\ extract_warranty_dates (Some m2) (Some E1) w = (w, Ok (Some E1, Some E))
    /\ extract_warranty_dates (Some (m1 + m2)) (Some D) w
       = (w, Ok (Some D, Some E))
    /\ ordinal E - ordinal D = 30 * (m1 + m2)
    /\ (m1 + m2 < 0 -> ordinal E < ordinal D).
Proof.
  intros HD H1 H12.
  exists (plus_days D (m1 * 30)), (plus_days D ((m1 + m2) * 30)).
  pose proof (plus_days_valid (m1 * 30) HD H1) as HE1.
  assert (H2 : 1 <= ordinal (plus_days D (m1 * 30)) + m2 * 30 <= MAXORDINAL)
    by (unfold plus_days; cbn [ordinal]; lia).
  rewrite !(extract_with_purchase_date _ _ HD),
          (extract_with_purchase_date _ _ HE1).
  destruct (in_range_test _ HD H1) as [-> ->].
  destruct (in_range_test _ HD H12) as [-> ->].
  destruct (in_range_test _ HE1 H2) as [-> ->].
  repeat split.
  - unfold plus_days; cbn [ordinal hour minute second microsecond].
    replace (ordinal D + m1 * 30 + m2 * 30) with (ordinal D + (m1 + m2) * 30)
      by lia.
    reflexivity.
  - unfold plus_days; cbn [ordinal]; lia.
  - unfold plus_days; cbn [ordinal]; lia.
Qed.

Lemma X2_durations_compose_witness :
  exists E1 E,
    extract_warranty_dates (Some 12) (Some purchase) quiet
    = (quiet, Ok (Some purchase, Some E1))
    /\ extract_warranty_dates (Some (-6)) (Some E1) quiet
       = (quiet, Ok (Some E1, Some E))
    /\ extract_warranty_dates (Some (12 + -6)) (Some purchase) quiet
       = (quiet, Ok (Some purchase, Some E))
    /\ ordinal E - ordinal purchase = 30 * (12 + -6)
    /\ (12 + -6 < 0 -> ordinal E < ordinal purchase).
Proof.
  apply (@X2_durations_compose purchase 12 (-6) quiet).
  - unfold valid, MAXORDINAL; cbn; lia.
  - unfold MAXORDINAL; cbn; lia.
  - unfold MAXORDINAL; cbn; lia.
Defined.

(** ** The reply parser *)

Lemma upto_last_none (c : char) (s : pystr) :
  Forall (fun x => x <> c) s -> upto_last c s = None.
Proof.
  induction 1 as [|x s Hx _ IH]; [reflexivity|].
  cbn. rewrite IH. apply N.eqb_neq in Hx. now rewrite Hx.
Qed.

Lemma upto_last_found (c : char) (body post : pystr) :
  Forall (fun x => x <> c) post ->
  upto_last c (body ++ c :: post) = Some (body ++ [c]).
Proof.
  intros Hpost. induction body as [|x body IH].
  - cbn. rewrite (upto_last_none Hpost). now rewrite N.eqb_refl.
  - cbn [app upto_last]. now rewrite IH.
Qed.

Lemma re_search_braces_skip (pre rest : pystr) :
  Forall (fun x => x <> ch "{") pre ->
  re_search_braces (pre ++ rest) = re_search_braces rest.
Proof.
  induction 1 as [|x pre Hx _ IH]; [reflexivity|].
  cbn [app re_search_braces]. apply N.eqb_neq in Hx. now rewrite Hx.
Qed.

Lemma re_search_braces_none (s : pystr) :
  Forall (fun x => x <> ch "{") s -> re_search_braces s = None.
Proof.
  intros H. rewrite <- (app_nil_r s). now rewrite re_search_braces_skip.
Qed.

Lemma same_payload_same_parse (r1 r2 : pystr) (w : world) :
  json_payload r1 = json_payload r2 ->
  _parse_analysis_response r1 w = _parse_analysis_response r2 w.
Proof. intros H. now rewrite !parse_response_cases, H. Qed.

(** X3: prose around the object does not matter.  When the text before the
    object has no opening brace and the text after it has no closing brace,
    the payload handed to the decoder is the object alone, and the parser
    does what it does on the bare object; a reply without any opening brace
    is handed over whole. *)
Theorem X3_prose_is_dropped (pre body post : pystr) :
  Forall (fun x => x <> ch "{") pre ->
  Forall (fun x => x <> ch "}") post ->
  json_payload (pre ++ ch "{" :: body ++ ch "}" :: post)
  = ch "{" :: body ++ [ch "}"]
  /\ (forall w,
        _parse_analysis_response (pre ++ ch "{" :: body ++ ch "}" :: post) w
        = _parse_analysis_response (ch "{" :: body ++ [ch "}"]) w)
  /\ json_payload pre = pre.
Proof.
  intros Hpre Hpost.
  assert (Hobj : forall p q, Forall (fun x => x <> ch "{") p ->
                             Forall (fun x => x <> ch "}") q ->
            json_payload (p ++ ch "{" :: body ++ ch "}" :: q)
            = ch "{" :: body ++ [ch "}"]).
  { intros p q Hp Hq. unfold json_payload.
    rewrite (re_search_braces_skip _ Hp). cbn [re_search_braces].
    rewrite N.eqb_refl, (upto_last_found _ Hq). reflexivity. }
  split; [apply Hobj; assumption|]. split.
  - intros w. apply same_payload_same_parse.
    rewrite (Hobj pre post Hpre Hpost).
    symmetry. exact (Hobj [] [] (Forall_nil _) (Forall_nil _)).
  - unfold json_payload. now rewrite (re_search_braces_none Hpre).
Qed.

Lemma X3_prose_is_dropped_witness :
  json_payload (py "Here you go: " ++ ch "{" :: pyq "'summary': 'ok'"
                  ++ ch "}" :: py " Anything else?")
  = ch "{" :: pyq "'summary': 'ok'" ++ [ch "}"].
Proof.
  refine (proj1 (@X3_prose_is_dropped (py "Here you go: ") (pyq "'summary': 'ok'")
                   (py " Anything else?") _ _)).
  - repeat constructor; vm_compute; discriminate.
  - repeat constructor; vm_compute; discriminate.
Defined.

Lemma v_all_str (name : string) (l : list pystr) :
  v_all v_str name (List.map PStr l) = Ok l.
Proof. induction l as [|s l IH]; cbn; [reflexivity|]. now rewrite IH. Qed.

Lemma v_all_dict (name : string) (l : list pydict) :
  v_all v_dict name (List.map PDict l) = Ok l.
Proof. induction l as [|s l IH]; cbn; [reflexivity|]. now rewrite IH. Qed.

Lemma reply_object_defaults (r : ClaudeAnalysisResult) :
  with_defaults (reply_object r)
  = mkAnalysisData
      (PStr (summary r)) (opt_val PStr (duration r))
      (opt_val PInt (duration_months r))
      (PList (List.map PStr (coverage_items r)))
      (PList (List.map PStr (exclusions r)))
      (PList (List.map PStr (limitations r)))
      (opt_val PStr (claim_procedure r)) (PDict (claim_contacts r))
      (PList (List.map PStr (required_docs r)))
      (PList (List.map PDict (critical_dates r)))
      (opt_val PBool (transferable r)) (opt_val PStr (extended_options r))
      (PList (List.map PDict (critical_highlights r)))
      (PList (List.map PDict (warning_highlights r)))
      (PList (List.map PDict (info_highlights r)))
      (PFloat (confidence_score r)).
Proof. reflexivity. Qed.

Lemma validate_stated (lax : lax_str) (r : ClaudeAnalysisResult) (c : float) :
  unit_interval c = true ->
  new_ClaudeAnalysisResult lax
    (set_confidence_score (with_defaults (reply_object r)) (PFloat c))
  = Ok (with_confidence r c).
Proof.
  intros Hc. rewrite reply_object_defaults.
  unfold new_ClaudeAnalysisResult, set_confidence_score, v_list, v_unit_float,
    v_float.
  cbn [k_summary k_duration k_duration_months k_coverage_items k_exclusions
       k_limitations k_claim_procedure k_claim_contacts k_required_docs
       k_critical_dates k_transferable k_extended_options
       k_critical_highlights k_warning_highlights k_info_highlights
       k_confidence_score v_str v_dict rbind].
  rewrite !v_all_str, !v_all_dict, Hc. cbn [rbind].
  destruct r as [s d dm ci ex li cp cc rd cd tr eo ch wh ih cs].
  cbn [duration duration_months claim_procedure transferable extended_options].
  destruct d, dm, cp, tr, eo; reflexivity.
Qed.

(** X4: a reply that states a result field by field is returned as that
    result.  With a score in [0,1] nothing is logged and every field is
    taken as stated; with a score outside, the warning is logged and only
    the score is replaced by 0.5. *)
Theorem X4_stated_result_is_returned
    (lax : lax_str) (reply : pystr) (r : ClaudeAnalysisResult) (w : world) :
  json_loads (json_payload reply) = Ok (PDict (reply_object r)) ->
  (unit_interval (confidence_score r) = true ->
     parse lax reply w = (w, Ok r))
  /\ (unit_interval (confidence_score r) = false ->
        parse lax reply w
        = (logged w bad_score_log, Ok (with_confidence r 0.5%float))).
Proof.
  intros Hd. rewrite parse_run, parse_response_cases, Hd. cbn [get_attr].
  assert (Hb : between_0_and_1 (k_confidence_score (with_defaults (reply_object r)))
               = Ok (unit_interval (confidence_score r))) by reflexivity.
  rewrite Hb. split; intros Hc; rewrite Hc.
  - replace (with_defaults (reply_object r))
      with (set_confidence_score (with_defaults (reply_object r))
              (PFloat (confidence_score r)))
      by (rewrite reply_object_defaults; reflexivity).
    rewrite (@validate_stated lax r _ Hc). destruct r; reflexivity.
  - now rewrite (@validate_stated lax r _ half_in_range).
Qed.

Lemma X4_stated_result_is_returned_witness :
  parse no_str_coercion two_year_reply quiet = (quiet, Ok two_year_warranty).
Proof.
  refine (proj1 (@X4_stated_result_is_returned no_str_coercion two_year_reply
                   two_year_warranty quiet _) _).
  - vm_compute; reflexivity.
  - vm_compute; reflexivity.
Defined.

(** X5: an object that has none of the sixteen keys (the empty object, or
    one with other keys only) is not an error: every field takes its
    default and the score is 0.5. *)
Theorem X5_missing_keys_default
    (lax : lax_str) (reply : pystr) (d : pydict) (w : world) :
  json_loads (json_payload reply) = Ok (PDict d) ->
  (forall k, In k known_keys -> dict_lookup k d = None) ->
  parse lax reply w = (w, Ok default_result)
  /\ default_result
     = mkClaudeAnalysisResult [] None None [] [] [] None [] [] [] None None
         [] [] [] 0.5%float.
Proof.
  intros Hd Hk. split; [|reflexivity].
  assert (E : with_defaults d = with_defaults []).
  { unfold with_defaults, dict_get.
    rewrite !Hk by (unfold known_keys; cbn [In]; tauto). reflexivity. }
  rewrite parse_run, parse_response_cases, Hd. cbn [get_attr]. rewrite E.
  vm_compute. reflexivity.
Qed.

Lemma X5_missing_keys_default_witness :
  parse no_str_coercion (pyq "{'note': 'nothing to report'}") quiet
  = (quiet, Ok default_result).
Proof.
  refine (proj1 (@X5_missing_keys_default no_str_coercion
                   (pyq "{'note': 'nothing to report'}")
                   [(py "note", PStr (py "nothing to report"))] quiet _ _)).
  - vm_compute; reflexivity.
  - intros k Hk. unfold known_keys in Hk. cbn [In] in Hk.
    repeat (destruct Hk as [<-|Hk]; [vm_compute; reflexivity|]).
    contradiction.
Defined.

Lemma calls_app (a b : list event) : calls (a ++ b) = calls a ++ calls b.
Proof.
  induction a as [|e a IH]; [reflexivity|].
  destruct e; cbn; now rewrite ?IH.
Qed.

Lemma calls_logged (w : world) (evs : list event) :
  calls (journal (logged w evs)) = calls (journal w) ++ calls evs.
Proof. apply calls_app. Qed.

Lemma calls_of_logs (evs : list event) : Forall is_log evs -> calls evs = [].
Proof.
  induction 1 as [|e evs He _ IH]; [reflexivity|].
  destruct e; cbn in *; try contradiction. exact IH.
Qed.

Lemma parse_pure (lax : lax_str) (reply : pystr) :
  exists (v : result ClaudeAnalysisResult) (evs : list event),
    Forall is_log evs /\ forall w, parse lax reply w = (logged w evs, v).
Proof.
  destruct (parse_response_pure reply) as (v & evs & Hlog & Hrun).
  destruct v as [a|e].
  - exists (new_ClaudeAnalysisResult lax a), evs. split; [exact Hlog|].
    intros w. now rewrite parse_run, Hrun.
  - exists (Raise e), evs. split; [exact Hlog|].
    intros w. now rewrite parse_run, Hrun.
Qed.

(** X6: [analyze_warranty] calls the model exactly once, with the contract
    text between the two pieces of the instruction, whatever happens next.
    An exception of the call is raised again unchanged; otherwise the
    outcome is that of parsing the concatenated text blocks of the reply. *)
Theorem X6_analyze_is_one_call_then_parse
    (lax : lax_str) (prompt_head prompt_tail : pystr)
    (messages_create : pystr -> result (list (option pystr)))
    (contract_text : pystr) (w : world) :
  let prompt := prompt_head ++ contract_text ++ prompt_tail in
  let run := analyze_warranty lax prompt_head prompt_tail messages_create
               contract_text w in
  calls (journal (fst run)) = calls (journal w) ++ [ModelCall prompt]
  /\ match messages_create prompt with
     | Raise e => snd run = Raise e
     | Ok blocks => snd run = snd (parse lax (block_texts blocks) w)
     end.
Proof.
  cbv zeta.
  unfold analyze_warranty, _create_analysis_prompt, try_except, bind, lift,
    log, emit, ret, raise.
  destruct (messages_create (prompt_head ++ contract_text ++ prompt_tail))
    as [blocks|e].
  - destruct (parse_pure lax (block_texts blocks)) as (v & evs & Hlog & Hrun).
    rewrite !Hrun. destruct v as [r|e]; cbn [fst snd];
      rewrite !calls_logged, (calls_of_logs Hlog); cbn [calls];
      rewrite !app_nil_r; split; reflexivity.
  - cbn [fst snd]. rewrite !calls_logged. cbn [calls].
    rewrite !app_nil_r. split; reflexivity.
Qed.

(** ** Text acquisition *)

Section MoreAcquisition.

Variable image : Type.
Variable cap : capabilities image.

(** Case analysis on every library call a run depends on. *)
Ltac split_run :=
  repeat (cbv beta iota;
          match goal with
          | |- context [match ?x with _ => _ end] =>
              lazymatch type of x with
              | (world * _)%type => fail
              | _ => destruct x
              end
          end).

Lemma optimize_steps_calls (image_bytes : bytes) (w : world) :
  calls (journal (fst (optimize_steps cap image_bytes w)))
  = calls (journal w) ++ [ImageOpen image_bytes].
Proof.
  unfold optimize_steps, bind, lift, log, emit, ret.
  split_run; cbn [fst]; rewrite ?logged_app, calls_logged; reflexivity.
Qed.

Lemma optimize_image_calls (image_bytes : bytes) (w : world) :
  exists w1 optimized,
    _optimize_image cap image_bytes w = (w1, Ok optimized)
    /\ calls (journal w1) = calls (journal w) ++ [ImageOpen image_bytes].
Proof.
  rewrite optimize_run.
  pose proof (optimize_steps_calls image_bytes w) as Hc.
  destruct (optimize_steps cap image_bytes w) as [w1 [png|e]]; cbn [fst] in Hc.
  - exists w1, png. split; [reflexivity|exact Hc].
  - eexists _, image_bytes. split; [reflexivity|].
    rewrite calls_logged, Hc. cbn. now rewrite app_nil_r.
Qed.

(** X7: the image path.  The image is normalised (which cannot fail) and
    what normalisation returned is submitted to vision OCR exactly once,
    under the media type the caller declared.  The call then returns the
    trimmed text on one page, or fails with [RuntimeError] when the vision
    call failed; it fails in no other way. *)
Theorem X7_image_path (file_content : bytes) (mime_type : pystr) (w : world) :
  exists w1 optimized,
    _optimize_image cap file_content
      (logged w [Log INFO "Processing image with Claude Vision (type: {mime_type})"])
    = (w1, Ok optimized)
    /\ calls (journal (fst (_process_image_with_claude cap file_content mime_type w)))
       = calls (journal w)
         ++ [ImageOpen file_content; VisionCall optimized mime_type]
    /\ snd (_process_image_with_claude cap file_content mime_type w)
       = match vision_create cap optimized mime_type with
         | Ok blocks =>
             Ok (mkOCRResult (strip (block_texts blocks))
                   (if len (strip (block_texts blocks)) >? 50
                    then 0.88%float else 0.65%float)
                   1)
         | Raise _ =>
             Raise (RuntimeError
                      (py "Failed to extract text with Claude Vision: {e}"))
         end.
Proof.
  destruct (optimize_image_calls file_content
              (logged w [Log INFO "Processing image with Claude Vision (type: {mime_type})"]))
    as (w1 & optimized & Hopt & Hcalls).
  exists w1, optimized. split; [exact Hopt|].
  rewrite calls_logged in Hcalls. cbn [calls] in Hcalls.
  rewrite app_nil_r in Hcalls.
  assert (Hrun : _process_image_with_claude cap file_content mime_type w
            = match vision_create cap optimized mime_type with
              | Ok blocks =>
                  (logged w1 [VisionCall optimized mime_type;
                              Log INFO "Extracted {} characters from image using Claude Vision"],
                   Ok (mkOCRResult (strip (block_texts blocks))
                         (image_confidence (strip (block_texts blocks))) 1))
              | Raise _ =>
                  (logged w1 [VisionCall optimized mime_type;
                              Log ERROR "Claude Vision API error: {e}";
                              Log ERROR "Error processing image: {e}"],
                   Raise (RuntimeError
                            (py "Failed to extract text with Claude Vision: {e}")))
              end).
  { unfold _process_image_with_claude.
    unfold bind at 1, log at 1, emit. unfold try_except at 1.
    unfold bind at 1. rewrite Hopt. unfold bind at 1. rewrite vision_run.
    destruct (vision_create cap optimized mime_type) as [blocks|e].
    - unfold lift, new_OCRResult.
      now rewrite image_confidence_in_range, strip_idempotent.
    - unfold bind, log, emit, raise. now rewrite logged_app. }
  rewrite Hrun.
  destruct (vision_create cap optimized mime_type) as [blocks|e];
    cbn [fst snd]; rewrite calls_logged, Hcalls; cbn [calls];
    rewrite <- app_assoc; split; reflexivity.
Qed.

Lemma ocr_pages_ok_inv (imgs : list image) :
  forall idx w parts,
    snd (ocr_pages cap idx imgs w) = Ok parts -> Forall (page_ok cap) imgs.
Proof.
  induction imgs as [|img rest IH]; intros idx w parts; [constructor|].
  rewrite ocr_pages_cons.
  destruct (image_save_png cap img false) as [b|e] eqn:Esave; [|discriminate].
  destruct (vision_create cap b (DocumentType_value PNG)) as [blocks|e]
    eqn:Evis; [|discriminate].
  match goal with |- context [ocr_pages cap (S idx) rest ?w0] =>
    pose proof (IH (S idx) w0) as IH';
    destruct (ocr_pages cap (S idx) rest w0) as [w3 [parts'|e]]
  end; [|discriminate].
  intros _. constructor.
  - exists b, blocks. split; assumption.
  - exact (IH' _ eq_refl).
Qed.

(** X8: the scanned path returns a result exactly when each of the first
    ten rasterised pages is encoded and read without error.  One failing
    page among them fails the whole document (no partial text is returned);
    the pages after the tenth have no influence. *)
Theorem X8_scanned_all_or_nothing
    (file_content : bytes) (n : Z) (w : world)
    (convert : bytes -> result (list image)) (images : list image) :
  pdf2image cap = Some convert ->
  convert file_content = Ok images ->
  (exists r, snd (_process_scanned_pdf cap file_content n w) = Ok r)
  <-> Forall (page_ok cap) (firstn 10 images).
Proof.
  intros Hcap Hconv.
  rewrite (@scanned_run _ cap file_content n w convert images Hcap Hconv).
  change page_cap with 10%nat.
  match goal with |- context [ocr_pages cap 1 ?l ?w0] =>
    pose proof (ocr_pages_ok_inv l 1 w0) as Hinv;
    destruct (@ocr_pages_spec _ cap l 1 w0) as (_ & _ & Htot);
    destruct (ocr_pages cap 1 l w0) as [w1 [parts|e]]
  end; cbn [snd] in *.
  - split; [intros _; exact (Hinv _ eq_refl)|intros _; eexists; reflexivity].
  - split.
    + intros [r Hr]. destruct e; discriminate.
    + intros Hall. specialize (Htot Hall). discriminate.
Qed.


(** X9: [ImportError] never leaves the scanned path.  When pdf2image is
    not installed the call fails with [ValueError] before any rasteriser or
    vision call; an [ImportError] raised later inside the path is reported
    by the same [ValueError]. *)
Theorem X9_import_error_is_translated
    (file_content : bytes) (n : Z) (w : world) :
  snd (_process_scanned_pdf cap file_content n w) <> Raise ImportError
  /\ (pdf2image cap = None ->
        _process_scanned_pdf cap file_content n w
        = (logged w [Log INFO "Processing scanned PDF with Claude Vision";
                     Log ERROR "pdf2image library not available, cannot process scanned PDFs"],
           Raise (ValueError (py "Cannot process scanned PDFs without pdf2image library"))))
  /\ (forall convert,
        pdf2image cap = Some convert ->
        convert file_content = Raise ImportError ->
        snd (_process_scanned_pdf cap file_content n w)
        = Raise (ValueError (py "Cannot process scanned PDFs without pdf2image library"))).
Proof.
  split; [|split].
  - unfold _process_scanned_pdf. unfold bind at 1, log at 1, emit.
    unfold try_except at 1.
    match goal with |- snd (let (_, _) := ?b in _) <> _ =>
      destruct b as [w' [r|e]] end; [discriminate|].
    destruct e; unfold bind, log, emit, raise; cbn [snd]; discriminate.
  - intros Hnone.
    unfold _process_scanned_pdf, try_except, bind, log, emit, raise.
    rewrite Hnone. now rewrite logged_app.
  - intros convert Hcap Hconv.
    unfold _process_scanned_pdf, try_except, bind, log, emit, raise, lift, ret.
    rewrite Hcap, Hconv. reflexivity.
Qed.

Lemma extract_pages_fail (pages : list (result pystr)) (e : exn) :
  first_error pages = Some e ->
  forall page_num w,
    exists evs,
      Forall is_log evs
      /\ extract_pages page_num pages w = (logged w evs, Raise e).
Proof.
  induction pages as [|[t|e0] rest IH]; cbn [first_error]; intros H;
    [discriminate| |]; intros page_num w.
  - destruct (IH H (S page_num)
                (logged w [Log DEBUG "Extracting text from page {page_num}/{page_count}"]))
      as (evs & Hlog & Hrun).
    eexists. split; [|cbn [extract_pages]; unfold bind, log, emit, lift;
                      rewrite Hrun, logged_app; reflexivity].
    constructor; [exact I|exact Hlog].
  - inversion H; subst. eexists. split; [|reflexivity].
    repeat constructor.
Qed.

(** X10: an extraction error is final.  When the PDF cannot be read, or the
    text of one of its pages cannot be extracted, [_process_pdf] raises that
    error; it does not fall back to OCR: the reader is the only library
    called. *)
Theorem X10_no_fallback_on_extraction_error (file_content : bytes) (w : world) :
  (forall e, pdf_pages cap file_content = Raise e ->
             snd (_process_pdf cap file_content w) = Raise e
             /\ calls (journal (fst (_process_pdf cap file_content w)))
                = calls (journal w) ++ [PdfRead file_content])
  /\ (forall pages e,
        pdf_pages cap file_content = Ok pages ->
        first_error pages = Some e ->
        snd (_process_pdf cap file_content w) = Raise e
        /\ calls (journal (fst (_process_pdf cap file_content w)))
           = calls (journal w) ++ [PdfRead file_content]).
Proof.
  split.
  - intros e He.
    unfold _process_pdf, try_except, bind, log, emit, raise, lift.
    rewrite He. cbn [fst snd]. rewrite !calls_logged. cbn [calls].
    rewrite !app_nil_r. split; reflexivity.
  - intros pages e Hp He.
    assert (Hrun : exists evs,
               Forall is_log evs
               /\ _process_pdf cap file_content w
                  = (logged w ([Log INFO "Processing PDF document";
                                PdfRead file_content] ++ evs), Raise e)).
    { destruct (extract_pages_fail _ He 1
                  (logged (logged w [Log INFO "Processing PDF document"])
                          [PdfRead file_content]))
        as (evs & Hlog & Hrun).
      exists (evs ++ [Log ERROR "Error processing PDF: {e}"]). split.
      - apply Forall_app. split; [exact Hlog|repeat constructor].
      - unfold _process_pdf. unfold bind at 1, log at 1, emit.
        unfold try_except at 1. unfold bind at 1, emit.
        unfold bind at 1, lift at 1. rewrite Hp. unfold bind at 1.
        rewrite Hrun. unfold bind, log, emit, raise.
        rewrite !logged_app. reflexivity. }
    destruct Hrun as (evs & Hlog & ->). cbn [fst snd].
    rewrite calls_logged, calls_app, (calls_of_logs Hlog). cbn [calls].
    split; reflexivity.
Qed.

Lemma native_parts_blank (texts : list pystr) :
  Forall (fun t => strip t = []) texts ->
  forall page_num, native_parts page_num texts = [].
Proof.
  induction 1 as [|t texts Ht _ IH]; intros page_num; [reflexivity|].
  cbn [native_parts]. rewrite Ht. apply IH.
Qed.

(** X11: a PDF none of whose pages has anything but white space (a PDF
    without pages included) is always handed to the scanned path, whose
    outcome is the outcome of the call. *)
Theorem X11_blank_pdf_goes_to_ocr
    (file_content : bytes) (w : world) (texts : list pystr) :
  pdf_pages cap file_content = Ok (List.map Ok texts) ->
  Forall (fun t => strip t = []) texts ->
  _process_pdf cap file_content w
  = try_except
      (_process_scanned_pdf cap file_content (Z.of_nat (List.length texts)))
      (fun e => log ERROR "Error processing PDF: {e}" ;;; raise e)
      (logged w ([Log INFO "Processing PDF document"; PdfRead file_content]
                 ++ repeat (Log DEBUG "Extracting text from page {page_num}/{page_count}")
                           (List.length texts)
                 ++ [Log WARNING "PDF appears to be scanned/image-based, using Claude Vision for OCR"])).
Proof.
  intros Hp Hblank.
  rewrite (@process_pdf_run _ cap file_content w texts Hp). cbv zeta.
  unfold native_text. rewrite (native_parts_blank Hblank).
  cbn [join strip lstrip rstrip rev app len List.length Z.of_nat Z.ltb Z.compare].
  now rewrite logged_app.
Qed.

(** X12: a rasteriser that produces no image at all is not an error: the
    scanned path returns an empty text with confidence 0.6 and a page count
    of 0, without any vision call. *)
Theorem X12_no_images_no_error
    (file_content : bytes) (n : Z) (w : world)
    (convert : bytes -> result (list image)) :
  pdf2image cap = Some convert ->
  convert file_content = Ok [] ->
  _process_scanned_pdf cap file_content n w
  = (logged w [Log INFO "Processing scanned PDF with Claude Vision";
               Rasterize file_content;
               Log INFO "Converted PDF to {} images"],
     Ok (mkOCRResult [] 0.6%float 0)).
Proof.
  intros Hcap Hconv.
  rewrite (@scanned_run _ cap file_content n w convert [] Hcap Hconv).
  reflexivity.
Qed.


(** *** What is logged at the ERROR level *)

Lemma calm_tidy {A} (m : M A) : calm m -> tidy m.
Proof.
  intros H w. destruct (H w) as (evs & Hw & He).
  exists evs. split; [exact Hw|intros _ _; exact He].
Qed.

Lemma calm_ret {A} (a : A) : calm (ret a).
Proof. intros w. exists []. cbn. now rewrite logged_nil. Qed.

Lemma calm_lift {A} (r : result A) : calm (lift r).
Proof. intros w. exists []. cbn. now rewrite logged_nil. Qed.

Lemma calm_raise {A} (e : exn) : calm (@raise A e).
Proof. intros w. exists []. cbn. now rewrite logged_nil. Qed.

Lemma calm_emit (e : event) : not_error e -> calm (emit e).
Proof. intros H w. exists [e]. split; [reflexivity|now constructor]. Qed.

Lemma calm_bind {A B} (m : M A) (k : A -> M B) :
  calm m -> (forall a, calm (k a)) -> calm (bind m k).
Proof.
  intros Hm Hk w. unfold bind.
  destruct (Hm w) as (evs1 & Hw1 & He1).
  destruct (m w) as [w1 [a|e]]; cbn [fst] in Hw1; subst w1.
  - destruct (Hk a (logged w evs1)) as (evs2 & Hw2 & He2).
    exists (evs1 ++ evs2). rewrite Hw2, logged_app.
    split; [reflexivity|now apply Forall_app].
  - exists evs1. now split.
Qed.

Lemma calm_try {A} (m : M A) (h : exn -> M A) :
  calm m -> (forall e, calm (h e)) -> calm (try_except m h).
Proof.
  intros Hm Hh w. unfold try_except.
  destruct (Hm w) as (evs1 & Hw1 & He1).
  destruct (m w) as [w1 [a|e]]; cbn [fst] in Hw1; subst w1.
  - exists evs1. now split.
  - destruct (Hh e (logged w evs1)) as (evs2 & Hw2 & He2).
    exists (evs1 ++ evs2). rewrite Hw2, logged_app.
    split; [reflexivity|now apply Forall_app].
Qed.

Lemma tidy_bind {A B} (m : M A) (k : A -> M B) :
  tidy m -> (forall a, tidy (k a)) -> tidy (bind m k).
Proof.
  intros Hm Hk w. unfold bind.
  destruct (Hm w) as (evs1 & Hw1 & He1).
  destruct (m w) as [w1 [a|e]]; cbn [fst snd] in *; subst w1.
  - destruct (Hk a (logged w evs1)) as (evs2 & Hw2 & He2).
    exists (evs1 ++ evs2). rewrite Hw2, logged_app.
    split; [reflexivity|].
    intros b Hb. apply Forall_app. split; [exact (He1 a eq_refl)|exact (He2 b Hb)].
  - exists evs1. split; [reflexivity|discriminate].
Qed.

Lemma log_then_raise_fails {A} (l : level) (t : string) (e : exn) :
  fails (A := A) (log l t ;;; raise e).
Proof.
  intros w. unfold bind, log, emit, raise. split; eexists; reflexivity.
Qed.

(** A handler that raises again lets a value through only when the body
    returned it. *)
Lemma tidy_try_reraise {A} (m : M A) (h : exn -> M A) :
  tidy m -> (forall e, fails (h e)) -> tidy (try_except m h).
Proof.
  intros Hm Hh w. unfold try_except.
  destruct (Hm w) as (evs1 & Hw1 & He1).
  destruct (m w) as [w1 [a|e]]; cbn [fst snd] in *; subst w1.
  - exists evs1. split; [reflexivity|]. intros b _. exact (He1 a eq_refl).
  - destruct (Hh e (logged w evs1)) as [[evs2 Hw2] [e' He']].
    exists (evs1 ++ evs2). rewrite Hw2, logged_app.
    split; [reflexivity|]. rewrite He'. discriminate.
Qed.

Ltac calm_step :=
  match goal with
  | |- calm (bind _ _) => apply calm_bind; [|intros]
  | |- calm (try_except _ _) => apply calm_try; [|intros]
  | |- calm (ret _) => apply calm_ret
  | |- calm (lift _) => apply calm_lift
  | |- calm (raise _) => apply calm_raise
  | |- calm (emit _) => apply calm_emit; exact I
  | |- calm (log _ _) => apply calm_emit; exact I
  | |- calm (if ?c then _ else _) => destruct c
  | |- calm (let (_, _) := ?x in _) => destruct x
  end.

Ltac tidy_step :=
  match goal with
  | |- tidy (bind _ _) => apply tidy_bind; [|intros]
  | |- tidy (try_except _ (fun e => log _ _ ;;; raise _)) =>
      apply tidy_try_reraise; [|intros; apply log_then_raise_fails]
  | |- tidy (if ?c then _ else _) => destruct c
  | |- tidy (match ?x with Some _ => _ | None => _ end) => destruct x
  | |- tidy _ => apply calm_tidy; repeat calm_step
  end.

Lemma optimize_image_calm (image_bytes : bytes) :
  calm (_optimize_image cap image_bytes).
Proof. unfold _optimize_image, optimize_steps. repeat calm_step. Qed.

Lemma vision_tidy (b : bytes) (mime : pystr) :
  tidy (_extract_text_with_claude_vision cap b mime).
Proof. unfold _extract_text_with_claude_vision. repeat tidy_step. Qed.

Lemma ocr_pages_tidy (imgs : list image) :
  forall idx, tidy (ocr_pages cap idx imgs).
Proof.
  induction imgs as [|img rest IH]; intros idx; cbn [ocr_pages].
  - repeat tidy_step.
  - apply tidy_bind; [repeat tidy_step|intros _].
    apply tidy_bind; [repeat tidy_step|intros img_bytes].
    apply tidy_bind; [apply vision_tidy|intros page_text].
    apply tidy_bind; [apply IH|intros text_parts]. repeat tidy_step.
Qed.

Lemma extract_pages_calm (pages : list (result pystr)) :
  forall page_num, calm (extract_pages page_num pages).
Proof.
  induction pages as [|page rest IH]; intros page_num; cbn [extract_pages].
  - calm_step.
  - apply calm_bind; [calm_step|intros _].
    apply calm_bind; [calm_step|intros text].
    apply calm_bind; [apply IH|intros text_parts]. calm_step.
Qed.

Lemma scanned_tidy (file_content : bytes) (n : Z) :
  tidy (_process_scanned_pdf cap file_content n).
Proof.
  unfold _process_scanned_pdf.
  apply tidy_bind; [repeat tidy_step|intros _].
  apply tidy_try_reraise.
  - apply tidy_bind; [repeat tidy_step|intros convert].
    apply tidy_bind; [repeat tidy_step|intros _].
    apply tidy_bind; [repeat tidy_step|intros images].
    apply tidy_bind; [repeat tidy_step|intros _].
    apply tidy_bind; [apply ocr_pages_tidy|intros text_parts]. repeat tidy_step.
  - intros e. destruct e; apply log_then_raise_fails.
Qed.

Lemma pdf_tidy (file_content : bytes) : tidy (_process_pdf cap file_content).
Proof.
  unfold _process_pdf.
  apply tidy_bind; [repeat tidy_step|intros _].
  apply tidy_try_reraise; [|intros; apply log_then_raise_fails].
  apply tidy_bind; [repeat tidy_step|intros _].
  apply tidy_bind; [repeat tidy_step|intros pages].
  apply tidy_bind; [apply calm_tidy, extract_pages_calm|intros text_parts].
  cbv zeta.
  destruct (len (strip (join paragraph_break text_parts)) <? scanned_threshold).
  - apply tidy_bind; [repeat tidy_step|intros _]. apply scanned_tidy.
  - repeat tidy_step.
Qed.

Lemma image_tidy (file_content : bytes) (mime_type : pystr) :
  tidy (_process_image_with_claude cap file_content mime_type).
Proof.
  unfold _process_image_with_claude.
  apply tidy_bind; [repeat tidy_step|intros _].
  apply tidy_try_reraise; [|intros; apply log_then_raise_fails].
  apply tidy_bind; [apply calm_tidy, optimize_image_calm|intros optimized].
  apply tidy_bind; [apply vision_tidy|intros extracted]. repeat tidy_step.
Qed.

(** X13: [process_document] logs at the ERROR level exactly when it fails.
    It only appends to the journal; when it returns a result nothing it
    appended is an ERROR record (a failed image normalisation is a warning),
    and when it raises, the last record is its own "Error processing
    document". *)
Theorem X13_errors_are_logged_iff_failure
    (file_content : bytes) (file_name mime_type : pystr) (w : world) :
  exists evs,
    fst (process_document cap file_content file_name mime_type w) = logged w evs
    /\ match snd (process_document cap file_content file_name mime_type w) with
       | Ok _ => Forall not_error evs
       | Raise _ =>
           exists before,
             evs = before
                   ++ [Log ERROR "Error processing document {file_name}: {e}"]
       end.
Proof.
  assert (Hbody : tidy (if str_eqb mime_type (DocumentType_value PDF)
                        then _process_pdf cap file_content
                        else if is_image_type mime_type
                        then _process_image_with_claude cap file_content mime_type
                        else raise (unsupported mime_type))).
  { destruct (str_eqb mime_type (DocumentType_value PDF)); [apply pdf_tidy|].
    destruct (is_image_type mime_type); [apply image_tidy|repeat tidy_step]. }
  set (body := if str_eqb mime_type (DocumentType_value PDF)
               then _process_pdf cap file_content
               else if is_image_type mime_type
               then _process_image_with_claude cap file_content mime_type
               else raise (unsupported mime_type)) in *.
  set (w0 := logged w [Log INFO "Processing document: {file_name} (type: {mime_type})"]).
  assert (Hrun : process_document cap file_content file_name mime_type w
                 = match body w0 with
                   | (w1, Ok r) => (w1, Ok r)
                   | (w1, Raise e) =>
                       (logged w1 [Log ERROR "Error processing document {file_name}: {e}"],
                        Raise e)
                   end).
  { unfold process_document. unfold bind at 1, log at 1, emit.
    unfold try_except. fold body. fold w0.
    destruct (body w0) as [w1 [r|e]]; reflexivity. }
  rewrite Hrun. destruct (Hbody w0) as (evs & Hw & He).
  destruct (body w0) as [w1 [r|e]]; cbn [fst snd] in *; subst w1; unfold w0.
  - eexists. rewrite logged_app. split; [reflexivity|].
    constructor; [exact I|exact (He r eq_refl)].
  - eexists. rewrite !logged_app. split; [reflexivity|].
    eexists. rewrite app_assoc. reflexivity.
Qed.

End MoreAcquisition.

Lemma X8_scanned_all_or_nothing_witness :
  exists r, snd (_process_scanned_pdf fifteen_pages scanned_contract 15 quiet) = Ok r.
Proof.
  apply (proj2 (@X8_scanned_all_or_nothing bytes fifteen_pages scanned_contract
                  15 quiet (fun _ => Ok fifteen_images) fifteen_images
                  eq_refl eq_refl)).
  repeat (constructor; [do 2 eexists; split; reflexivity|]). constructor.
Defined.

Lemma X9_import_error_is_translated_witness :
  _process_scanned_pdf (text_pdf []) scanned_contract 0 quiet
  = (logged quiet
       [Log INFO "Processing scanned PDF with Claude Vision";
        Log ERROR "pdf2image library not available, cannot process scanned PDFs"],
     Raise (ValueError (py "Cannot process scanned PDFs without pdf2image library"))).
Proof.
  exact (proj1 (proj2 (@X9_import_error_is_translated bytes (text_pdf [])
                         scanned_contract 0 quiet)) eq_refl).
Defined.

Lemma X10_no_fallback_on_extraction_error_witness :
  snd (_process_pdf broken_page scanned_contract quiet)
  = Raise (LibraryError "PdfReadError")
  /\ calls (journal (fst (_process_pdf broken_page scanned_contract quiet)))
     = calls (journal quiet) ++ [PdfRead scanned_contract].
Proof.
  exact (proj2 (@X10_no_fallback_on_extraction_error bytes broken_page
                  scanned_contract quiet) _ _ eq_refl eq_refl).
Defined.

Lemma X11_blank_pdf_goes_to_ocr_witness :
  In (Rasterize scanned_contract)
     (journal (fst (_process_pdf fifteen_pages scanned_contract quiet))).
Proof.
  rewrite (@X11_blank_pdf_goes_to_ocr bytes fifteen_pages scanned_contract quiet
             (repeat [] 15) eq_refl).
  - vm_compute. tauto.
  - repeat constructor.
Defined.

Lemma X12_no_images_no_error_witness :
  snd (_process_scanned_pdf (scanner 0 []) scanned_contract 0 quiet)
  = Ok (mkOCRResult [] 0.6%float 0).
Proof.
  rewrite (@X12_no_images_no_error bytes (scanner 0 []) scanned_contract 0 quiet
             (fun _ => Ok []) eq_refl eq_refl).
  reflexivity.
Defined.

(** ** Configuration *)

Lemma split_on_not_nil (sep : char) (s : pystr) : split_on sep s <> [].
Proof.
  destruct s as [|c r]; cbn; [discriminate|].
  destruct (c =? sep)%N; [discriminate|].
  destruct (split_on sep r); discriminate.
Qed.

Lemma split_on_length (sep : char) (s : pystr) :
  List.length (split_on sep s) = S (count_char sep s).
Proof.
  unfold count_char. induction s as [|c r IH]; [reflexivity|].
  cbn [split_on filter]. destruct (c =? sep)%N; cbn [List.length].
  - now rewrite IH.
  - destruct (split_on sep r) as [|p ps] eqn:E; [now destruct (@split_on_not_nil _ _ E)|].
    exact IH.
Qed.

Lemma split_on_pieces (sep : char) (s : pystr) :
  Forall (fun p => forall c, In c p -> c <> sep /\ In c s) (split_on sep s).
Proof.
  induction s as [|c r IH]; cbn [split_on].
  - constructor; [intros c []|constructor].
  - assert (IH' : Forall (fun p => forall x, In x p -> x <> sep /\ In x (c :: r))
                         (split_on sep r)).
    { eapply Forall_impl; [|exact IH]. cbn. intros p Hp x Hx.
      destruct (Hp x Hx). split; [assumption|now right]. }
    destruct (c =? sep)%N eqn:Ec.
    + constructor; [intros x []|exact IH'].
    + destruct (split_on sep r) as [|p ps] eqn:E;
        [now destruct (@split_on_not_nil _ _ E)|].
      inversion IH' as [|? ? Hp Hps]; subst. constructor; [|exact Hps].
      intros x [<-|Hx]; [split; [now apply N.eqb_neq|now left]|now apply Hp].
Qed.

Lemma join_split_on (sep : char) (s : pystr) :
  join [sep] (split_on sep s) = s.
Proof.
  induction s as [|c r IH]; [reflexivity|].
  cbn [split_on]. destruct (c =? sep)%N eqn:Ec.
  - apply N.eqb_eq in Ec. subst c.
    destruct (split_on sep r) as [|p ps] eqn:E; [now destruct (@split_on_not_nil _ _ E)|].
    change (join [sep] ([] :: p :: ps))
      with ([] ++ [sep] ++ join [sep] (p :: ps)).
    now rewrite IH.
  - destruct (split_on sep r) as [|p ps] eqn:E; [now destruct (@split_on_not_nil _ _ E)|].
    rewrite <- IH. destruct ps as [|q qs]; reflexivity.
Qed.

Lemma lstrip_subset (s : pystr) (c : char) : In c (lstrip s) -> In c s.
Proof.
  destruct (lstrip_suffix s) as [ws E]. intros H.
  rewrite E. apply in_or_app. now right.
Qed.

Lemma strip_subset (s : pystr) (c : char) : In c (strip s) -> In c s.
Proof.
  unfold strip, rstrip. intros H.
  apply in_rev, lstrip_subset, in_rev in H. now apply lstrip_subset.
Qed.

Lemma strip_no_space (s : pystr) : no_space s -> strip s = s.
Proof.
  intros H.
  assert (H1 : no_lead s) by (destruct H; [exact I|assumption]).
  assert (H2 : no_lead (rev s)).
  { apply Forall_rev in H. destruct H; [exact I|assumption]. }
  unfold strip, rstrip.
  rewrite (no_lead_lstrip _ H1), (no_lead_lstrip _ H2). apply rev_involutive.
Qed.

(** X14: [parse_allowed_origins].  A list is passed through.  A string is
    cut at its commas, so it gives one origin more than it has commas (the
    empty string gives one empty origin, not an empty list); every origin is
    trimmed and free of commas; and, white space apart, joining the origins
    with commas gives the string back. *)
Theorem X14_allowed_origins (s : pystr) :
  (forall origins, parse_allowed_origins (inr origins) = origins)
  /\ List.length (parse_allowed_origins (inl s)) = S (count_char (ch ",") s)
  /\ Forall (fun o => strip o = o /\ ~ In (ch ",") o)
            (parse_allowed_origins (inl s))
  /\ (no_space s -> join [ch ","] (parse_allowed_origins (inl s)) = s).
Proof.
  split; [reflexivity|]. split; [|split].
  - unfold parse_allowed_origins. now rewrite length_map, split_on_length.
  - unfold parse_allowed_origins. apply Forall_map.
    eapply Forall_impl; [|apply split_on_pieces]. cbn.
    intros p Hp. split; [apply strip_idempotent|].
    intros Hin. apply strip_subset in Hin. now destruct (Hp _ Hin).
  - intros Hs. unfold parse_allowed_origins.
    replace (List.map strip (split_on (ch ",") s)) with (split_on (ch ",") s).
    + apply join_split_on.
    + symmetry. rewrite <- (map_id (split_on (ch ",") s)) at 2.
      apply map_ext_Forall.
      eapply Forall_impl; [|apply split_on_pieces]. cbn.
      intros p Hp. apply strip_no_space. apply Forall_forall.
      intros c Hc. destruct (Hp c Hc) as [_ Hin].
      exact (proj1 (Forall_forall _ _) Hs c Hin).
Qed.

Lemma X14_allowed_origins_witness :
  join [ch ","] (parse_allowed_origins
                   (inl (py "http://localhost:3000,http://localhost:3001")))
  = py "http://localhost:3000,http://localhost:3001".
Proof.
  apply (proj2 (proj2 (proj2 (X14_allowed_origins
           (py "http://localhost:3000,http://localhost:3001"))))).
  unfold no_space. repeat constructor.
Defined.

(** ** Page markers and the scanned-document threshold *)

Lemma digits_fuel_length (fuel : nat) :
  forall n acc, (List.length acc <= List.length (digits_fuel fuel n acc))%nat.
Proof.
  induction fuel as [|fuel IH]; intros n acc; cbn [digits_fuel]; [lia|].
  destruct (n <? 10)%N; cbn [List.length]; [lia|].
  etransitivity; [|apply IH]. cbn [List.length]. lia.
Qed.

Lemma str_of_nat_length (n : nat) : (1 <= List.length (str_of_nat n))%nat.
Proof.
  unfold str_of_nat. cbn [digits_fuel].
  destruct (N.of_nat n <? 10)%N; cbn [List.length]; [lia|].
  etransitivity; [|apply digits_fuel_length]. cbn [List.length]. lia.
Qed.

(** A page part is a marker of at least 15 characters, which starts with a
    dash, followed by the text of the page. *)
Lemma page_part_marker (n : nat) (t : pystr) :
  exists marker,
    page_part n t = ch "-" :: marker ++ t /\ (14 <= List.length marker)%nat.
Proof.
  exists (py "-- Page " ++ str_of_nat n ++ py " ---" ++ [newline]). split.
  - unfold page_part. cbn [py list_ascii_of_string List.map app].
    rewrite <- !app_assoc. reflexivity.
  - rewrite !length_app. pose proof (str_of_nat_length n).
    change (List.length (py "-- Page ")) with 8%nat.
    change (List.length (py " ---")) with 4%nat.
    cbn [List.length]. lia.
Qed.

Lemma lstrip_not_nil (t : pystr) :
  lstrip t <> [] -> exists a c b, t = a ++ c :: b /\ isspace c = false.
Proof.
  induction t as [|c t IH]; cbn [lstrip]; [congruence|].
  destruct (isspace c) eqn:Ec.
  - intros H. destruct (IH H) as (a & c' & b & -> & Hc').
    exists (c :: a), c', b. now split.
  - intros _. exists [], c, t. now split.
Qed.

Lemma strip_not_nil (t : pystr) :
  strip t <> [] -> exists a c b, t = a ++ c :: b /\ isspace c = false.
Proof.
  intros H. apply lstrip_not_nil. intros E. apply H.
  unfold strip. now rewrite E.
Qed.

Lemma lstrip_keeps (x y : pystr) (c : char) :
  isspace c = false ->
  (S (List.length y) <= List.length (lstrip (x ++ c :: y)))%nat.
Proof.
  intros Hc. induction x as [|d x IH]; cbn [app lstrip].
  - rewrite Hc. cbn [List.length]. lia.
  - destruct (isspace d); [exact IH|].
    cbn [List.length]. rewrite length_app. cbn [List.length]. lia.
Qed.

Lemma strip_keeps (a b : pystr) (c : char) :
  isspace c = false ->
  (S (List.length a) <= List.length (strip (ch "-" :: a ++ c :: b)))%nat.
Proof.
  intros Hc. unfold strip, rstrip.
  change (lstrip (ch "-" :: a ++ c :: b)) with (ch "-" :: a ++ c :: b).
  rewrite length_rev.
  change (ch "-" :: a ++ c :: b) with ((ch "-" :: a) ++ c :: b).
  rewrite rev_app_distr. cbn [rev]. rewrite <- !app_assoc. cbn [app].
  etransitivity; [|apply lstrip_keeps; exact Hc].
  rewrite length_app, length_rev. cbn [List.length]. lia.
Qed.

Lemma native_parts_shape (texts : list pystr) :
  forall page_num,
    List.length (native_parts page_num texts) = List.length (nonblank texts)
    /\ Forall (fun p => exists k t, p = page_part k t /\ strip t <> [])
              (native_parts page_num texts).
Proof.
  induction texts as [|t rest IH]; intros page_num;
    cbn [native_parts nonblank filter]; [split; [reflexivity|constructor]|].
  destruct (IH (S page_num)) as [Hlen Hall]. fold (nonblank rest).
  destruct (strip t) as [|c s] eqn:Et.
  - split; assumption.
  - split; [cbn [List.length]; now rewrite Hlen|].
    constructor; [|exact Hall]. exists page_num, t. split; [reflexivity|].
    rewrite Et. discriminate.
Qed.

Lemma join_head (sep p : pystr) (rest : list pystr) :
  exists tail, join sep (p :: rest) = p ++ tail.
Proof.
  destruct rest as [|q rest]; cbn [join].
  - exists []. now rewrite app_nil_r.
  - eexists. reflexivity.
Qed.

(** Three marked pages already make more than 50 characters. *)
Lemma three_parts_are_long (texts : list pystr) :
  (3 <= List.length (nonblank texts))%nat ->
  50 <= len (strip (native_text texts)).
Proof.
  intros H3. unfold native_text.
  destruct (native_parts_shape texts 1) as [Hlen Hall].
  rewrite <- Hlen in H3.
  destruct (native_parts 1 texts) as [|p1 [|p2 [|p3 rest]]];
    cbn [List.length] in H3; try lia.
  inversion Hall as [|? ? (k1 & t1 & -> & Ht1) Hall1]; subst.
  inversion Hall1 as [|? ? (k2 & t2 & -> & Ht2) Hall2]; subst.
  inversion Hall2 as [|? ? (k3 & t3 & -> & Ht3) _]; subst.
  destruct (page_part_marker k1 t1) as (m1 & -> & Hm1).
  destruct (page_part_marker k2 t2) as (m2 & E2 & Hm2).
  destruct (page_part_marker k3 t3) as (m3 & E3 & Hm3).
  destruct (strip_not_nil _ Ht3) as (a & c & b & -> & Hc).
  destruct (join_head paragraph_break (page_part k3 (a ++ c :: b)) rest)
    as [tail Etail].
  change (join paragraph_break
            ((ch "-" :: m1 ++ t1) :: page_part k2 t2
             :: page_part k3 (a ++ c :: b) :: rest))
    with ((ch "-" :: m1 ++ t1) ++ paragraph_break ++ page_part k2 t2
          ++ paragraph_break
          ++ join paragraph_break (page_part k3 (a ++ c :: b) :: rest)).
  rewrite Etail, E2, E3.
  replace ((ch "-" :: m1 ++ t1) ++ paragraph_break ++ (ch "-" :: m2 ++ t2)
           ++ paragraph_break ++ (ch "-" :: m3 ++ a ++ c :: b) ++ tail)
    with (ch "-" :: (m1 ++ t1 ++ paragraph_break ++ (ch "-" :: m2 ++ t2)
                     ++ paragraph_break ++ ch "-" :: m3 ++ a)
                    ++ c :: (b ++ tail))
    by (cbn [app]; rewrite <- !app_assoc; cbn [app];
        repeat (rewrite <- ?app_assoc; cbn [app]); reflexivity).
  pose proof (strip_keeps
                (m1 ++ t1 ++ paragraph_break ++ (ch "-" :: m2 ++ t2)
                 ++ paragraph_break ++ ch "-" :: m3 ++ a)
                (b ++ tail) c Hc) as Hk.
  unfold len.
  repeat (rewrite ?length_app in Hk; cbn [List.length] in Hk).
  change (List.length paragraph_break) with 2%nat in Hk.
  assert (1 <= List.length t1)%nat
    by (destruct t1; [now destruct Ht1|cbn; lia]).
  assert (1 <= List.length t2)%nat
    by (destruct t2; [now destruct Ht2|cbn; lia]).
  lia.
Qed.

(** X15: the page markers count toward the threshold.  A PDF in which at
    least three pages have some text, however little, is never treated as
    scanned: its concatenated text has at least 50 characters once trimmed,
    and the native text is returned without any rasteriser or vision
    call. *)
Theorem X15_three_pages_are_never_scanned
    (image : Type) (cap : capabilities image)
    (file_content : bytes) (w : world) (texts : list pystr) :
  pdf_pages cap file_content = Ok (List.map Ok texts) ->
  (3 <= List.length (nonblank texts))%nat ->
  50 <= len (strip (native_text texts))
  /\ snd (_process_pdf cap file_content w)
     = Ok (mkOCRResult (strip (native_text texts))
             (if len (native_text texts) >? 100 then 0.95%float else 0.7%float)
             (Z.of_nat (List.length texts)))
  /\ calls (journal (fst (_process_pdf cap file_content w)))
     = calls (journal w) ++ [PdfRead file_content].
Proof.
  intros Hp H3. pose proof (three_parts_are_long texts H3) as Hlong.
  split; [exact Hlong|].
  rewrite (@process_pdf_run _ cap file_content w texts Hp). cbv zeta.
  apply Z.ltb_ge in Hlong. rewrite Hlong. cbn [fst snd].
  split; [reflexivity|].
  rewrite calls_logged, calls_app. cbn [calls].
  assert (Hr : forall l t n, calls (repeat (Log l t) n) = []).
  { intros l t n. induction n as [|n IH]; [reflexivity|exact IH]. }
  now rewrite Hr.
Qed.

Lemma X15_three_pages_are_never_scanned_witness :
  snd (_process_pdf (text_pdf [py "1"; py "2"; py "3"]) scanned_contract quiet)
  = Ok (mkOCRResult
          (strip (native_text [py "1"; py "2"; py "3"])) 0.7%float 3).
Proof.
  refine (proj1 (proj2 (@X15_three_pages_are_never_scanned bytes
            (text_pdf [py "1"; py "2"; py "3"]) scanned_contract quiet
            [py "1"; py "2"; py "3"] eq_refl _))).
  cbn. lia.
Defined.
